(** * escpos-usb-server: the TCP-to-USB forwarding server

    A shallow embedding of the Go packages [adapter] (adapter.go, the USB
    adapter) and [server] (the forwarding server), with the test double
    [MockAdapter] of server_test.go.

    Conventions.
    - A Go [error] is modelled by its message; [nil] is [None].
    - Go [int] counts are [Z].
    - A method whose body runs between [mu.Lock()] and the matching
      [Unlock] is one atomic state transformer; the lock itself is made
      explicit only where a property depends on it (module [serialize]).
    - Log lines are advisory and are not modelled. *)

From Stdlib Require Import ZArith Lia.
From Stdlib Require Strings.Byte.
From stdpp Require Import base tactics list strings.

Local Open Scope string_scope.
Local Open Scope Z_scope.
Local Open Scope list_scope.

Abbreviation bytes := (list Byte.byte).

#[global] Instance byte_eq_dec : EqDecision Byte.byte := Strings.Byte.byte_eq_dec.

(** A Go error value, identified by its message. *)
Definition error := string.

(** [fmt.Errorf("<prefix>%w", err)]. *)
Definition Errorf (prefix : string) (err : error) : error := prefix +:+ err.

(** [len(data)] as a Go [int]. *)
Definition len {T} (l : list T) : Z := Z.of_nat (length l).

(* ================================================================== *)
(** * Package [adapter] *)

Module adapter.

(** adapter.go: [type Adapter interface].  [Read(buf)] returns the buffer
    as the callee left it together with the count. *)
Class Adapter (A : Type) := {
  Open : A -> A * option error;
  Write : bytes -> A -> A * (Z * option error);
  Read : bytes -> A -> A * (bytes * Z * option error);
  Close : A -> A * option error;
  IsOpen : A -> bool
}.

(** ** The handles of [github.com/google/gousb] that the adapter holds.

    The library is external: a handle is given by the results its methods
    report. *)
Module gousb.

Inductive EndpointDirection := EndpointDirectionOut | EndpointDirectionIn.

Record EndpointDesc := {
  ep_Number : Z;
  ep_Direction : EndpointDirection
}.

Record OutEndpoint := { out_Write : bytes -> Z * option error }.

Record InEndpoint := { in_Read : bytes -> bytes * Z * option error }.

Record InterfaceSetting := {
  Class : Z;
  Endpoints : list EndpointDesc
}.

Record Interface := {
  Setting : InterfaceSetting;
  iface_OutEndpoint : Z -> OutEndpoint + error;
  iface_InEndpoint : Z -> InEndpoint + error
}.

Record InterfaceDesc := {
  Number : Z;
  AltSettings : list InterfaceSetting
}.

Record Config := {
  Desc_Interfaces : list InterfaceDesc;
  cfg_Interface : Z -> Z -> Interface + error
}.

Record Device := {
  dev_ActiveConfigNum : Z + error;
  dev_Config : Z -> Config + error;
  dev_Close : option error
}.

Record Context := { ctx_Close : option error }.

End gousb.

Definition IfaceClassAudio : Z := 0x01.
Definition IfaceClassHID : Z := 0x03.
Definition IfaceClassPrinter : Z := 0x07.
Definition IfaceClassHub : Z := 0x09.

Inductive EventType :=
  EventConnect | EventDisconnect | EventDetach | EventData | EventClose.

#[global] Instance EventType_eq_dec : EqDecision EventType.
Proof. solve_decision. Defined.

Record Event := {
  Type_ : EventType;
  Device : option gousb.Device;
  Data : bytes;
  Error : option error
}.

(** A registered [func(Event)], named by a number. *)
Definition Handler := nat.

(** [type USBAdapter struct].  [eventListeners] is the Go map, a missing
    key reading as the empty slice; the two mutexes are free whenever no
    method is executing and are not fields of the model. *)
Record USBAdapter := {
  device : option gousb.Device;
  ctx : option gousb.Context;
  outEndpoint : option gousb.OutEndpoint;
  inEndpoint : option gousb.InEndpoint;
  iface : option gousb.Interface;
  eventListeners : EventType -> list Handler;
  isOpen : bool
}.

Definition set_iface (i : option gousb.Interface) (a : USBAdapter) :=
  {| device := device a; ctx := ctx a; outEndpoint := outEndpoint a;
     inEndpoint := inEndpoint a; iface := i;
     eventListeners := eventListeners a; isOpen := isOpen a |}.

Definition set_outEndpoint (e : option gousb.OutEndpoint) (a : USBAdapter) :=
  {| device := device a; ctx := ctx a; outEndpoint := e;
     inEndpoint := inEndpoint a; iface := iface a;
     eventListeners := eventListeners a; isOpen := isOpen a |}.

Definition set_inEndpoint (e : option gousb.InEndpoint) (a : USBAdapter) :=
  {| device := device a; ctx := ctx a; outEndpoint := outEndpoint a;
     inEndpoint := e; iface := iface a;
     eventListeners := eventListeners a; isOpen := isOpen a |}.

Definition set_isOpen (b : bool) (a : USBAdapter) :=
  {| device := device a; ctx := ctx a; outEndpoint := outEndpoint a;
     inEndpoint := inEndpoint a; iface := iface a;
     eventListeners := eventListeners a; isOpen := b |}.


(** What a method does besides changing the adapter: the calls it makes
    into gousb and the goroutines it starts. *)
Inductive Effect :=
| SetAutoDetach
| ConfigClose
| InterfaceClose
| DeviceClose
| ContextClose
| EndpointWrite (data : bytes)
| EndpointRead
| Go (h : Handler) (ev : Event).

(** The outcome of a method: the adapter afterwards, the returned value,
    the effects in program order. *)
Record Out (R : Type) := mkOut {
  after : USBAdapter;
  result : R;
  effects : list Effect
}.
Arguments mkOut {R}.
Arguments after {R}.
Arguments result {R}.
Arguments effects {R}.


(** [func (a *USBAdapter) emit]: one goroutine per listener of the event's
    type. *)
Definition emit (event : Event) (a : USBAdapter) : list Effect :=
  map (fun handler => Go handler event) (eventListeners a (Type_ event)).

Definition mkEvent (t : EventType) (d : option gousb.Device) (data : bytes) :=
  {| Type_ := t; Device := d; Data := data; Error := None |}.

(** The search for the printer interface in [Open]: the inner loop over the
    alternate settings stops at the first of class printer, the outer loop
    stops as soon as the number found is not negative. *)
Fixpoint alt_scan (number : Z) (alts : list gousb.InterfaceSetting) (found : Z) : Z :=
  match alts with
  | [] => found
  | alt :: rest =>
      if gousb.Class alt =? IfaceClassPrinter then number
      else alt_scan number rest found
  end.

Fixpoint iface_scan (ifaces : list gousb.InterfaceDesc) (found : Z) : Z :=
  match ifaces with
  | [] => found
  | i :: rest =>
      let found' := alt_scan (gousb.Number i) (gousb.AltSettings i) found in
      if 0 <=? found' then found' else iface_scan rest found'
  end.

(** The endpoint loop of [Open]: the first usable endpoint of each
    direction is kept. *)
Fixpoint find_endpoints (i : gousb.Interface) (eps : list gousb.EndpointDesc)
    (a : USBAdapter) : USBAdapter :=
  match eps with
  | [] => a
  | epDesc :: rest =>
      let a1 :=
        match gousb.ep_Direction epDesc, outEndpoint a with
        | gousb.EndpointDirectionOut, None =>
            match gousb.iface_OutEndpoint i (gousb.ep_Number epDesc) with
            | inl ep => set_outEndpoint (Some ep) a
            | inr _ => a
            end
        | _, _ => a
        end in
      let a2 :=
        match gousb.ep_Direction epDesc, inEndpoint a1 with
        | gousb.EndpointDirectionIn, None =>
            match gousb.iface_InEndpoint i (gousb.ep_Number epDesc) with
            | inl ep => set_inEndpoint (Some ep) a1
            | inr _ => a1
            end
        | _, _ => a1
        end in
      find_endpoints i rest a2
  end.

(** [func (a *USBAdapter) Open]; [GOOS] is [runtime.GOOS]. *)
Definition USBAdapter_Open (GOOS : string) (a : USBAdapter) : Out (option error) :=
  if isOpen a then mkOut a (Some "device already open") [] else
  match device a with
  | None => mkOut a (Some "device not found") []
  | Some d =>
    let e0 := if decide (GOOS = "linux") then [SetAutoDetach] else [] in
    match gousb.dev_ActiveConfigNum d with
    | inr err => mkOut a (Some (Errorf "failed to get active config: " err)) e0
    | inl cfgNum =>
      match gousb.dev_Config d cfgNum with
      | inr err => mkOut a (Some (Errorf "failed to get config: " err)) e0
      | inl cfg =>
        let printerIfaceNum := iface_scan (gousb.Desc_Interfaces cfg) (-1) in
        if printerIfaceNum <? 0
        then mkOut a (Some "no printer interface found") (e0 ++ [ConfigClose])
        else
          match gousb.cfg_Interface cfg printerIfaceNum 0 with
          | inr err =>
              mkOut a (Some (Errorf "failed to claim interface: " err))
                    (e0 ++ [ConfigClose])
          | inl i =>
              let a1 := set_iface (Some i) a in
              let a2 := find_endpoints i (gousb.Endpoints (gousb.Setting i)) a1 in
              match outEndpoint a2 with
              | None =>
                  mkOut a2 (Some "cannot find output endpoint from printer")
                        (e0 ++ [ConfigClose])
              | Some _ =>
                  let a3 := set_isOpen true a2 in
                  mkOut a3 None
                    (e0 ++ emit (mkEvent EventConnect (device a3) []) a3
                        ++ [ConfigClose])
              end
          end
      end
    end
  end.

(** [func (a *USBAdapter) Write]. *)
Definition USBAdapter_Write (data : bytes) (a : USBAdapter)
  : Out (Z * option error) :=
  if negb (isOpen a) then mkOut a (0, Some "device not open") [] else
  match outEndpoint a with
  | None => mkOut a (0, Some "output endpoint not available") []
  | Some ep =>
      let e1 := emit (mkEvent EventData None data) a in
      match gousb.out_Write ep data with
      | (n, Some err) =>
          mkOut a (n, Some (Errorf "write failed: " err))
                (e1 ++ [EndpointWrite data])
      | (n, None) => mkOut a (n, None) (e1 ++ [EndpointWrite data])
      end
  end.

(** [func (a *USBAdapter) Read]. *)
Definition USBAdapter_Read (buf : bytes) (a : USBAdapter)
  : Out (bytes * Z * option error) :=
  if negb (isOpen a) then mkOut a (buf, 0, Some "device not open") [] else
  match inEndpoint a with
  | None => mkOut a (buf, 0, Some "input endpoint not available") []
  | Some ep =>
      match gousb.in_Read ep buf with
      | (buf', n, Some err) =>
          mkOut a (buf', n, Some (Errorf "read failed: " err)) [EndpointRead]
      | (buf', n, None) => mkOut a (buf', n, None) [EndpointRead]
      end
  end.

(** [func (a *USBAdapter) Close]. *)
Definition USBAdapter_Close (a : USBAdapter) : Out (option error) :=
  if negb (isOpen a) then mkOut a None [] else
  let '(a1, e1) :=
    match iface a with
    | Some _ => (set_iface None a, [InterfaceClose])
    | None => (a, [])
    end in
  let '(errs2, e2) :=
    match device a1 with
    | Some d =>
        (match gousb.dev_Close d with Some err => [err] | None => [] end,
         [DeviceClose])
    | None => ([], [])
    end in
  let '(errs3, e3) :=
    match ctx a1 with
    | Some c =>
        (match gousb.ctx_Close c with
         | Some err => errs2 ++ [err]
         | None => errs2
         end, [ContextClose])
    | None => (errs2, [])
    end in
  let a2 := set_isOpen false a1 in
  let e4 := emit (mkEvent EventClose (device a2) []) a2 in
  match errs3 with
  | [] => mkOut a2 None (e1 ++ e2 ++ e3 ++ e4)
  | _ :: _ =>
      mkOut a2
        (Some (Errorf "close errors: "
                 ("[" +:+ String.concat " " errs3 +:+ "]")))
        (e1 ++ e2 ++ e3 ++ e4)
  end.

(** [func (a *USBAdapter) IsOpen]. *)
Definition USBAdapter_IsOpen (a : USBAdapter) : bool := isOpen a.

(** [func (a *USBAdapter) GetDevice]. *)
Definition GetDevice (a : USBAdapter) : option gousb.Device := device a.

(** [*USBAdapter] implements [Adapter]. *)
Section USBAdapterInstance.
Variable GOOS : string.

Definition usb_pack {R} (o : Out R) : USBAdapter * R := (after o, result o).

#[local] Instance USBAdapter_Adapter : Adapter USBAdapter := {|
  Open a := usb_pack (USBAdapter_Open GOOS a);
  Write data a := usb_pack (USBAdapter_Write data a);
  Read buf a := usb_pack (USBAdapter_Read buf a);
  Close a := usb_pack (USBAdapter_Close a);
  IsOpen := USBAdapter_IsOpen
|}.
End USBAdapterInstance.

(** server_test.go: [type MockAdapter struct], the in-memory byte sink. *)
Record MockAdapter := {
  open : bool;
  writeData : bytes
}.

Definition MockAdapter_Open (m : MockAdapter) : MockAdapter * option error :=
  ({| open := true; writeData := writeData m |}, None).

Definition MockAdapter_Write (data : bytes) (m : MockAdapter)
  : MockAdapter * (Z * option error) :=
  ({| open := open m; writeData := writeData m ++ data |}, (len data, None)).

Definition MockAdapter_Read (buf : bytes) (m : MockAdapter)
  : MockAdapter * (bytes * Z * option error) :=
  (m, (buf, 0, None)).

Definition MockAdapter_Close (m : MockAdapter) : MockAdapter * option error :=
  ({| open := false; writeData := writeData m |}, None).

Definition MockAdapter_IsOpen (m : MockAdapter) : bool := open m.

#[global] Instance MockAdapter_Adapter : Adapter MockAdapter := {|
  Open := MockAdapter_Open;
  Write := MockAdapter_Write;
  Read := MockAdapter_Read;
  Close := MockAdapter_Close;
  IsOpen := MockAdapter_IsOpen
|}.

End adapter.

(* ================================================================== *)
(** * Package [server] *)

Module server.
Import adapter.

(** ** The operating system's side of package [net] *)

(** A [net.Listener], named by its descriptor. *)
Definition Listener := nat.

(** The listeners that are open, with the address each is bound to; the
    next free descriptor; the platform's verdict on an address (it parses,
    resolves and may be bound by this process). *)
Record Net := {
  bound : list (Listener * string);
  next_fd : Listener;
  bindable : string -> bool
}.

Definition in_use (addr : string) (n : Net) : bool :=
  existsb (fun p => String.eqb (snd p) addr) (bound n).

Definition listening (l : Listener) (n : Net) : bool :=
  existsb (fun p => Nat.eqb (fst p) l) (bound n).

(** [net.Listen("tcp", addr)]. *)
Definition net_Listen (addr : string) (n : Net) : Net * (Listener + error) :=
  if negb (bindable n addr)
  then (n, inr ("listen tcp: address " +:+ addr +:+ ": cannot be used"))
  else if in_use addr n
  then (n, inr ("listen tcp " +:+ addr +:+ ": bind: address already in use"))
  else ({| bound := (next_fd n, addr) :: bound n;
           next_fd := S (next_fd n);
           bindable := bindable n |},
        inl (next_fd n)).

(** [listener.Close()]; the error of closing twice is dropped by every
    caller. *)
Definition Listener_Close (l : Listener) (n : Net) : Net :=
  {| bound := List.filter (fun p => negb (Nat.eqb (fst p) l)) (bound n);
     next_fd := next_fd n;
     bindable := bindable n |}.

(** ** [type Server struct]

    [adapter] is a reference: the adapter's state lives beside the server
    in [State].  [wg] is the counter of the [sync.WaitGroup]. *)
Record Server := {
  listener : option Listener;
  address : string;
  running : bool;
  wg : Z
}.

(** [func New] and [func NewWithLogger]. *)
Definition New (address : string) : Server :=
  {| listener := None; address := address; running := false; wg := 0 |}.

Definition set_listener (l : option Listener) (s : Server) : Server :=
  {| listener := l; address := address s; running := running s; wg := wg s |}.

Definition set_running (b : bool) (s : Server) : Server :=
  {| listener := listener s; address := address s; running := b; wg := wg s |}.

Definition set_wg (n : Z) (s : Server) : Server :=
  {| listener := listener s; address := address s; running := running s; wg := n |}.

(** The calls a goroutine makes on the device port, with what they
    returned. *)
Inductive Call :=
| CallIsOpen (b : bool)
| CallOpen (err : option error)
| CallWrite (data : bytes) (written : Z) (err : option error)
| CallClose (err : option error).

(** The bytes handed to the device port's [Write], call after call. *)
Definition forwarded (cs : list Call) : bytes :=
  flat_map (fun c => match c with CallWrite data _ _ => data | _ => [] end) cs.

(** The call returned a nil error. *)
Definition call_ok (c : Call) : bool :=
  match c with
  | CallOpen (Some _) | CallWrite _ _ (Some _) | CallClose (Some _) => false
  | _ => true
  end.

Inductive Method := MStart | MStartAsync | MStop.

(** Who runs [acceptConnections]: the caller of [Start], or the goroutine
    started by [StartAsync]. *)
Inductive Frame := InStart | InGoroutine.

(** Where a goroutine stands between two atomic pieces of its code. *)
Inductive Task :=
| StartAsync_Add                  (* StartAsync, before [s.wg.Add(1)] *)
| acceptConnections_top (f : Frame)           (* head of the [for] loop *)
| acceptConnections_Accept (f : Frame) (l : Listener)
                                  (* inside [s.listener.Accept()] *)
| handleConnection_Read           (* inside [conn.Read(buf)] *)
| Stop_listener (l : option Listener)
                                  (* Stop, before [if listener != nil] *)
| Stop_Wait                       (* Stop, inside [s.wg.Wait()] *)
| Stop_IsOpen                     (* Stop, before [s.adapter.IsOpen()] *)
| Stop_Close                      (* Stop, before [s.adapter.Close()] *)
| Returned (m : Method) (err : option error)
| Exited.                         (* a goroutine that ran to its end *)

Section WithAdapter.
Context {A : Type} `{Adapter A}.

Record State := {
  srv : Server;
  dev : A;
  net : Net
}.

Definition with_srv (f : Server -> Server) (s : State) : State :=
  {| srv := f (srv s); dev := dev s; net := net s |}.

(** One atomic piece of a goroutine's code: the state it leaves, the
    device-port calls it made, where the goroutine stands afterwards, and
    the goroutines it started. *)
Record Piece := {
  st : State;
  did : list Call;
  next : Task;
  forked : list Task
}.

Definition AlreadyRunning : error := "server already running".
Definition BindFailed (err : error) : error := Errorf "failed to start server: " err.
Definition DeviceOpenFailed (err : error) : error := Errorf "failed to open adapter: " err.

(** The body shared, line for line, by [Start] and [StartAsync], from
    [s.mu.Lock()] to the last [s.mu.Unlock()]; [m] and [continue] are what
    differs: the method's name and what follows the unlock. *)
Definition start_locked (m : Method) (continue : Task) (s : State) : Piece :=
  if running (srv s)
  then {| st := s; did := []; next := Returned m (Some AlreadyRunning); forked := [] |}
  else
    match net_Listen (address (srv s)) (net s) with
    | (_, inr err) =>
        {| st := s; did := []; next := Returned m (Some (BindFailed err)); forked := [] |}
    | (net1, inl listener) =>
        let srv1 := set_running true (set_listener (Some listener) (srv s)) in
        if negb (IsOpen (dev s))
        then
          match Open (dev s) with
          | (dev1, Some err) =>
              {| st := {| srv := set_running false srv1;
                          dev := dev1;
                          net := Listener_Close listener net1 |};
                 did := [CallIsOpen false; CallOpen (Some err)];
                 next := Returned m (Some (DeviceOpenFailed err));
                 forked := [] |}
          | (dev1, None) =>
              {| st := {| srv := srv1; dev := dev1; net := net1 |};
                 did := [CallIsOpen false; CallOpen None];
                 next := continue;
                 forked := [] |}
          end
        else
          {| st := {| srv := srv1; dev := dev s; net := net1 |};
             did := [CallIsOpen true];
             next := continue;
             forked := [] |}
    end.

(** [func (s *Server) Start], up to the call of [s.acceptConnections()]. *)
Definition Start (s : State) : Piece :=
  start_locked MStart (acceptConnections_top InStart) s.

(** [func (s *Server) StartAsync], up to the last [s.mu.Unlock()]. *)
Definition StartAsync (s : State) : Piece :=
  start_locked MStartAsync StartAsync_Add s.

(** [StartAsync], the rest: [s.wg.Add(1); go s.acceptConnections();
    return nil]. *)
Definition StartAsync_rest (s : State) : Piece :=
  {| st := with_srv (fun v => set_wg (wg v + 1) v) s;
     did := [];
     next := Returned MStartAsync None;
     forked := [acceptConnections_top InGoroutine] |}.

(** [acceptConnections] returns: [Start] then returns nil, the goroutine of
    [StartAsync] ends. *)
Definition accept_return (f : Frame) : Task :=
  match f with
  | InStart => Returned MStart None
  | InGoroutine => Exited
  end.

(** What the environment hands to a goroutine that resumes. *)
Inductive Input :=
| NoInput
| Accepted                                 (* Accept: a connection *)
| AcceptError (err : error)                (* Accept: an error *)
| ReadResult (data : bytes) (err : option error).
                                           (* Read: len data, err *)

(** [acceptConnections], head of the loop: [s.listener.Accept()] is called
    on the listener the field holds now; on a nil listener the call
    panics. *)
Definition acceptConnections_call (f : Frame) (s : State) : option Piece :=
  match listener (srv s) with
  | Some l => Some {| st := s; did := []; next := acceptConnections_Accept f l; forked := [] |}
  | None => None
  end.

(** [acceptConnections], [Accept] returns.  A connection arrives only on
    an open listener.  An error changes nothing by itself, so the piece is
    taken at the moment [s.running] is read under [s.mu]. *)
Definition acceptConnections_resume (f : Frame) (l : Listener) (i : Input)
    (s : State) : option Piece :=
  match i with
  | Accepted =>
      if listening l (net s)
      then Some {| st := with_srv (fun v => set_wg (wg v + 1) v) s;
                   did := [];
                   next := acceptConnections_top f;
                   forked := [handleConnection_Read] |}
      else None
  | AcceptError _ =>
      if negb (running (srv s))
      then Some {| st := s; did := []; next := accept_return f; forked := [] |}
      else Some {| st := s; did := []; next := acceptConnections_top f; forked := [] |}
  | _ => None
  end.

(** The size of the read buffer of [handleConnection]. *)
Definition buf_len : Z := 4096.

(** One turn of the [for] loop of [handleConnection], given what
    [conn.Read(buf)] returned: the device afterwards, the calls made on it,
    and whether the loop goes on ([true]) or the function returns. *)
Definition forward (data : bytes) (err : option error) (d : A)
  : A * list Call * bool :=
  match err with
  | Some _ => (d, [], false)
  | None =>
      if 0 <? len data
      then
        match Write data d with
        | (d1, (written, Some writeErr)) =>
            (d1, [CallWrite data written (Some writeErr)], false)
        | (d1, (written, None)) =>
            (d1, [CallWrite data written None], true)
        end
      else (d, [], true)
  end.

(** [handleConnection] over the results of its successive reads; the last
    component tells whether the function returned ([true]) or is waiting in
    a further [Read]. *)
Fixpoint handleConnection (reads : list (bytes * option error)) (d : A)
  : A * list Call * bool :=
  match reads with
  | [] => (d, [], false)
  | (data, err) :: rest =>
      match forward data err d with
      | (d1, cs, true) =>
          let '(d2, cs', returned) := handleConnection rest d1 in
          (d2, cs ++ cs', returned)
      | (d1, cs, false) => (d1, cs, true)
      end
  end.

(** [handleConnection] as a goroutine: a read returns.  On return the
    deferred calls run, [conn.Close()] then [s.wg.Done()], which panics on a
    counter that would become negative. *)
Definition handleConnection_resume (i : Input) (s : State) : option Piece :=
  match i with
  | ReadResult data err =>
      if len data <=? buf_len
      then
        match forward data err (dev s) with
        | (d1, cs, true) =>
            Some {| st := {| srv := srv s; dev := d1; net := net s |};
                    did := cs; next := handleConnection_Read; forked := [] |}
        | (d1, cs, false) =>
            if 0 <=? wg (srv s) - 1
            then Some {| st := {| srv := set_wg (wg (srv s) - 1) (srv s);
                                  dev := d1; net := net s |};
                         did := cs; next := Exited; forked := [] |}
            else None
        end
      else None
  | _ => None
  end.

(** [func (s *Server) Stop], from [s.mu.Lock()] to [s.mu.Unlock()]. *)
Definition Stop (s : State) : Piece :=
  if negb (running (srv s))
  then {| st := s; did := []; next := Returned MStop None; forked := [] |}
  else {| st := with_srv (set_running false) s;
          did := [];
          next := Stop_listener (listener (srv s));
          forked := [] |}.

(** [Stop], the rest, piece by piece. *)
Definition Stop_resume (t : Task) (s : State) : option Piece :=
  match t with
  | Stop_listener l =>
      Some {| st := match l with
                    | Some l' => {| srv := srv s; dev := dev s;
                                    net := Listener_Close l' (net s) |}
                    | None => s
                    end;
              did := []; next := Stop_Wait; forked := [] |}
  | Stop_Wait =>
      (* [s.wg.Wait()] returns once the counter is zero *)
      if wg (srv s) =? 0
      then Some {| st := s; did := []; next := Stop_IsOpen; forked := [] |}
      else None
  | Stop_IsOpen =>
      if IsOpen (dev s)
      then Some {| st := s; did := [CallIsOpen true]; next := Stop_Close; forked := [] |}
      else Some {| st := s; did := [CallIsOpen false];
                   next := Returned MStop None; forked := [] |}
  | Stop_Close =>
      let '(d1, err) := Close (dev s) in
      Some {| st := {| srv := srv s; dev := d1; net := net s |};
              did := [CallClose err];
              next := Returned MStop err;
              forked := [] |}
  | _ => None
  end.

(** [func (s *Server) IsRunning], [Address]. *)
Definition IsRunning (s : State) : bool := running (srv s).
Definition Address (s : State) : string := address (srv s).
Definition GetAdapter (s : State) : A := dev s.

(** ** The goroutines together *)

Record World := {
  state : State;
  pool : list Task;              (* goroutine [tid] is [pool !! tid] *)
  calls : list (nat * Call)      (* device-port calls, by goroutine *)
}.

(** A fresh server next to its device and the network. *)
Definition boot (address : string) (device : A) (n : Net) : World :=
  {| state := {| srv := New address; dev := device; net := n |};
     pool := [];
     calls := [] |}.

Inductive Choice :=
| Invoke (m : Method)              (* some goroutine calls the method *)
| Resume (tid : nat) (i : Input).  (* goroutine [tid] runs its next piece *)

Definition invoke (m : Method) (s : State) : Piece :=
  match m with
  | MStart => Start s
  | MStartAsync => StartAsync s
  | MStop => Stop s
  end.

Definition resume (t : Task) (i : Input) (s : State) : option Piece :=
  match t with
  | StartAsync_Add => Some (StartAsync_rest s)
  | acceptConnections_top f => acceptConnections_call f s
  | acceptConnections_Accept f l => acceptConnections_resume f l i s
  | handleConnection_Read => handleConnection_resume i s
  | Stop_listener _ | Stop_Wait | Stop_IsOpen | Stop_Close => Stop_resume t s
  | Returned _ _ | Exited => None
  end.

(** The effect of a piece run by goroutine [tid]; [ts] is the pool with
    that goroutine's new standing. *)
Definition commit (tid : nat) (p : Piece) (ts : list Task) (w : World) : World :=
  {| state := st p;
     pool := ts ++ forked p;
     calls := calls w ++ map (pair tid) (did p) |}.

(** One scheduling decision; [None] when the goroutine cannot take it: it
    is blocked, finished or absent, it would panic, or the input is not one
    its pending call can return. *)
Definition step (c : Choice) (w : World) : option World :=
  match c with
  | Invoke m =>
      let p := invoke m (state w) in
      Some (commit (length (pool w)) p (pool w ++ [next p]) w)
  | Resume tid i =>
      match pool w !! tid with
      | Some t =>
          match resume t i (state w) with
          | Some p => Some (commit tid p (<[tid := next p]> (pool w)) w)
          | None => None
          end
      | None => None
      end
  end.

Fixpoint run (cs : list Choice) (w : World) : option World :=
  match cs with
  | [] => Some w
  | c :: rest =>
      match step c w with
      | Some w1 => run rest w1
      | None => None
      end
  end.

End WithAdapter.
Arguments State A : clear implicits.
Arguments Piece A : clear implicits.
Arguments World A : clear implicits.

(** What a client's connection delivers to successive reads: the chunks of
    what it sent and then, if it closed, the error [fin] with no bytes. *)
Definition delivery (chunks : list bytes) (fin : option error)
  : list (bytes * option error) :=
  map (fun c => (c, None)) chunks
  ++ match fin with Some e => [([], Some e)] | None => [] end.

(** ** Reading a pool and a log of calls *)

(** The [Add(1)] on the wait group that no [Done] has answered: one for
    each [StartAsync] that returned nil, since [acceptConnections] never
    calls [s.wg.Done()], and one for each connection task still running. *)
Definition weight (t : Task) : Z :=
  match t with
  | Returned MStartAsync None => 1
  | handleConnection_Read => 1
  | _ => 0
  end.

Fixpoint total (ts : list Task) : Z :=
  match ts with
  | [] => 0
  | t :: rest => weight t + total rest
  end.

(** A [Stop] that found the server running and has not come back from
    [s.wg.Wait()]. *)
Definition draining (t : Task) : bool :=
  match t with
  | Stop_listener _ | Stop_Wait => true
  | _ => false
  end.

(** The method a goroutine is executing, when it is the caller of one. *)
Definition method_of (t : Task) : option Method :=
  match t with
  | StartAsync_Add => Some MStartAsync
  | acceptConnections_top InStart | acceptConnections_Accept InStart _ =>
      Some MStart
  | Stop_listener _ | Stop_Wait | Stop_IsOpen | Stop_Close => Some MStop
  | Returned m _ => Some m
  | _ => None
  end.

(** The calls made by goroutine [tid], in order. *)
Definition calls_of (tid : nat) (l : list (nat * Call)) : list Call :=
  map snd (List.filter (fun p => Nat.eqb (fst p) tid) l).

Definition is_Open (c : Call) : bool :=
  match c with CallOpen _ => true | _ => false end.

Definition is_Close (c : Call) : bool :=
  match c with CallClose _ => true | _ => false end.

Definition count (op : Call -> bool) (cs : list Call) : nat :=
  length (List.filter op cs).

(** Every call selected by [op] comes right after an [IsOpen] that
    returned [b]; [prev] is the call before the first of [cs]. *)
Fixpoint guarded (b : bool) (op : Call -> bool) (prev : option Call)
    (cs : list Call) : bool :=
  match cs with
  | [] => true
  | c :: rest =>
      (if op c
       then match prev with
            | Some (CallIsOpen b') => Bool.eqb b b'
            | _ => false
            end
       else true)
      && guarded b op (Some c) rest
  end.

(** The calls a goroutine can have made, by where it stands. *)
Definition start_calls (cs : list Call) : Prop :=
  cs = [] \/ cs = [CallIsOpen true] \/
  exists r, cs = [CallIsOpen false; CallOpen r].

Definition stop_calls (cs : list Call) : Prop :=
  cs = [] \/ cs = [CallIsOpen false] \/
  exists r, cs = [CallIsOpen true; CallClose r].

Definition shape (t : Task) (cs : list Call) : Prop :=
  match t with
  | StartAsync_Add
  | acceptConnections_top InStart | acceptConnections_Accept InStart _
  | Returned MStart _ | Returned MStartAsync _ => start_calls cs
  | Stop_listener _ | Stop_Wait | Stop_IsOpen => cs = []
  | Stop_Close => cs = [CallIsOpen true]
  | Returned MStop _ => stop_calls cs
  | _ => True
  end.

(** How a step changes the pool: a method is entered by a new goroutine
    ([old = None]), or goroutine [tid], standing at [t], moves on. *)
Definition placed (old : option Task) (tid : nat) (ts : list Task)
    (x : Task) (fk : list Task) (np : list Task) : Prop :=
  match old with
  | None => tid = length ts /\ np = (ts ++ [x]) ++ fk
  | Some t => ts !! tid = Some t /\ np = <[tid := x]> ts ++ fk
  end.

Section Pieces.
Context {A : Type} `{Adapter A}.

(** The piece that ran. *)
Definition piece_of (old : option Task) (p : Piece A) (s : State A) : Prop :=
  match old with
  | None => exists m, p = invoke m s
  | Some t => exists i, resume t i s = Some p
  end.

(** A listener captured by a [Stop] is older than the next descriptor and
    is not the listener of a running server. *)
Definition stale (s : State A) (l : Listener) : Prop :=
  (l < next_fd (net s))%nat /\
  (running (srv s) = true -> listener (srv s) <> Some l).

(** A running server holds a listener that is open. *)
Definition listens (s : State A) : Prop :=
  (running (srv s) = true ->
     exists l, listener (srv s) = Some l /\ listening l (net s) = true) /\
  (forall l, listener (srv s) = Some l -> (l < next_fd (net s))%nat).

End Pieces.

End server.

(* ================================================================== *)
(** * The write path, lock by lock

    [handleConnection] and the [Write] method it calls, cut at every lock
    operation and every access to what the goroutines share, so that the
    forwarding goroutines can be interleaved inside a write. *)

Module serialize.
Import adapter.

(** What happens at the device, in real-time order. *)
Inductive Ev :=
| WBegin (tid : nat) (data : bytes)   (* the body of Write starts on data *)
| WByte (tid : nat) (b : Byte.byte)   (* one byte goes out to the endpoint *)
| WEnd (tid : nat) (n : Z) (err : option error).  (* the body is left *)

(** A [Write] method as a procedure run piece by piece: [call] enters it,
    [piece tid] runs the caller's next piece on the shared device; it is
    [None] while the caller is blocked, and ends with the values returned. *)
Class WriteMethod (D P : Type) := {
  call : bytes -> P;
  piece : nat -> P -> D -> option (D * list Ev * (P + Z * option error))
}.

(** ** [USBAdapter.Write]

    The adapter with its mutex [mu]: the goroutine holding it, if any. *)
Record LockedUSB := {
  usb : USBAdapter;
  mu : option nat
}.

Inductive UsbPc :=
| U_Lock (data : bytes)               (* at [a.mu.Lock()] *)
| U_Transfer (rest : bytes) (n : Z) (err : option error)
                                      (* inside [a.outEndpoint.Write(data)],
                                         [rest] still to go out *)
| U_Unlock (n : Z) (err : option error).  (* at the deferred [a.mu.Unlock()] *)

(** The transfer is taken at its finest grain, a byte at a time: of [data]
    the [n] bytes the endpoint reports go out.  [a.emit] starts goroutines
    and changes nothing of the adapter; it is part of the piece that takes
    the mutex. *)
Definition USBAdapter_Write_piece (tid : nat) (p : UsbPc) (d : LockedUSB)
  : option (LockedUSB * list Ev * (UsbPc + Z * option error)) :=
  match p with
  | U_Lock data =>
      match mu d with
      | Some _ => None
      | None =>
          let d1 := {| usb := usb d; mu := Some tid |} in
          if negb (isOpen (usb d))
          then Some (d1, [WBegin tid data], inl (U_Unlock 0 (Some "device not open")))
          else
            match outEndpoint (usb d) with
            | None =>
                Some (d1, [WBegin tid data],
                      inl (U_Unlock 0 (Some "output endpoint not available")))
            | Some ep =>
                match gousb.out_Write ep data with
                | (n, Some err) =>
                    Some (d1, [WBegin tid data],
                          inl (U_Transfer (firstn (Z.to_nat n) data) n
                                 (Some (Errorf "write failed: " err))))
                | (n, None) =>
                    Some (d1, [WBegin tid data],
                          inl (U_Transfer (firstn (Z.to_nat n) data) n None))
                end
            end
      end
  | U_Transfer (b :: rest) n err =>
      Some (d, [WByte tid b], inl (U_Transfer rest n err))
  | U_Transfer [] n err =>
      Some (d, [], inl (U_Unlock n err))
  | U_Unlock n err =>
      Some ({| usb := usb d; mu := None |}, [WEnd tid n err], inr (n, err))
  end.

(** [USBAdapter.Write] run by one goroutine left alone, from the piece [p]
    to the return; [fuel] bounds the number of pieces. *)
Fixpoint USBAdapter_Write_alone (fuel : nat) (tid : nat) (p : UsbPc)
    (d : LockedUSB) : option (LockedUSB * list Ev * (Z * option error)) :=
  match fuel with
  | O => None
  | S fuel' =>
      match USBAdapter_Write_piece tid p d with
      | None => None
      | Some (d1, evs, inr r) => Some (d1, evs, r)
      | Some (d1, evs, inl p1) =>
          match USBAdapter_Write_alone fuel' tid p1 d1 with
          | Some (d2, evs', r) => Some (d2, evs ++ evs', r)
          | None => None
          end
      end
  end.

#[global] Instance USBAdapter_WriteMethod : WriteMethod LockedUSB UsbPc := {|
  call := U_Lock;
  piece := USBAdapter_Write_piece
|}.

(** ** [MockAdapter.Write]

    [m.writeData = append(m.writeData, data...)]: the slice is loaded, then
    the longer slice is stored.  There is no lock. *)
Inductive MockPc :=
| M_load (data : bytes)
| M_store (old data : bytes).

Definition MockAdapter_Write_piece (tid : nat) (p : MockPc) (m : MockAdapter)
  : option (MockAdapter * list Ev * (MockPc + Z * option error)) :=
  match p with
  | M_load data =>
      Some (m, [WBegin tid data], inl (M_store (writeData m) data))
  | M_store old data =>
      Some ({| open := open m; writeData := old ++ data |},
            map (WByte tid) data ++ [WEnd tid (len data) None],
            inr (len data, None))
  end.

#[global] Instance MockAdapter_WriteMethod : WriteMethod MockAdapter MockPc := {|
  call := M_load;
  piece := MockAdapter_Write_piece
|}.

(** ** [handleConnection], one goroutine per connection *)

Section Forwarding.
Context {D P : Type} `{WriteMethod D P}.

(** A forwarding goroutine: in [conn.Read] with the results of its coming
    reads, inside [s.adapter.Write(buf[:n])], or returned. *)
Inductive Fwd :=
| F_Read (reads : list (bytes * option error))
| F_Write (p : P) (reads : list (bytes * option error))
| F_Return.

Record Sys := {
  device_port : D;
  tasks : list Fwd;
  log : list Ev
}.

(** The next piece of [handleConnection].  Between the read and the call
    of [Write], and around that call, the function takes no lock. *)
Definition handleConnection_piece (tid : nat) (t : Fwd) (d : D)
  : option (D * list Ev * Fwd) :=
  match t with
  | F_Read [] => None
  | F_Read ((_, Some _) :: _) => Some (d, [], F_Return)
  | F_Read ((data, None) :: rest) =>
      if 0 <? len data
      then Some (d, [], F_Write (call data) rest)
      else Some (d, [], F_Read rest)
  | F_Write p rest =>
      match piece tid p d with
      | None => None
      | Some (d1, evs, inl p1) => Some (d1, evs, F_Write p1 rest)
      | Some (d1, evs, inr (_, Some _)) => Some (d1, evs, F_Return)
      | Some (d1, evs, inr (_, None)) => Some (d1, evs, F_Read rest)
      end
  | F_Return => None
  end.

(** One turn of the loop by a goroutine left alone: from a read to the next
    read or to the return; [fuel] bounds the number of pieces. *)
Fixpoint handleConnection_turn (fuel : nat) (tid : nat) (t : Fwd) (d : D)
  : option (D * list Ev * Fwd) :=
  match fuel with
  | O => None
  | S fuel' =>
      match handleConnection_piece tid t d with
      | None => None
      | Some (d1, evs, F_Write p1 rest) =>
          match handleConnection_turn fuel' tid (F_Write p1 rest) d1 with
          | Some (d2, evs', t2) => Some (d2, evs ++ evs', t2)
          | None => None
          end
      | Some (d1, evs, t1) => Some (d1, evs, t1)
      end
  end.

(** The scheduler lets goroutine [tid] run its next piece. *)
Definition sched (tid : nat) (s : Sys) : option Sys :=
  match tasks s !! tid with
  | None => None
  | Some t =>
      match handleConnection_piece tid t (device_port s) with
      | None => None
      | Some (d1, evs, t1) =>
          Some {| device_port := d1;
                  tasks := <[tid := t1]> (tasks s);
                  log := log s ++ evs |}
      end
  end.

Fixpoint exec (tids : list nat) (s : Sys) : option Sys :=
  match tids with
  | [] => Some s
  | tid :: rest =>
      match sched tid s with
      | Some s1 => exec rest s1
      | None => None
      end
  end.

(** The connections are accepted, nothing has been written yet. *)
Definition start (d : D) (conns : list (list (bytes * option error))) : Sys :=
  {| device_port := d; tasks := map F_Read conns; log := [] |}.

End Forwarding.
Arguments Fwd P : clear implicits.
Arguments Sys D P : clear implicits.

(** ** Writes that do not overlap

    Reading the log from its start: no write is open, or the write of
    goroutine [tid] is open and [rest] of its data has not gone out. *)
Definition Cursor := option (nat * bytes).

Definition advance (c : option Cursor) (e : Ev) : option Cursor :=
  match c, e with
  | Some None, WBegin tid data => Some (Some (tid, data))
  | Some (Some (owner, b' :: rest)), WByte tid b =>
      if decide (tid = owner /\ b = b') then Some (Some (owner, rest)) else None
  | Some (Some (owner, _)), WEnd tid _ _ =>
      if decide (tid = owner) then Some None else None
  | _, _ => None
  end.

Definition cursor (l : list Ev) : option Cursor := fold_left advance l (Some None).

(** Every write is begun and left before the next begins, and the bytes
    that go out in between are, in order, bytes of its own data. *)
Definition serial (l : list Ev) : bool :=
  match cursor l with Some _ => true | None => false end.

(** The writes begun, each with the goroutine that called it. *)
Definition begun (l : list Ev) : list (nat * bytes) :=
  flat_map (fun e => match e with WBegin tid data => [(tid, data)] | _ => [] end) l.






End serialize.

(* ================================================================== *)
(** * Concrete devices, networks and clients used in the examples *)

Module scenario.
Import adapter server serialize.

(** A network on which every address may be bound and none is. *)
Definition idle_net : Net :=
  {| bound := []; next_fd := 3%nat; bindable := fun _ => true |}.

(** [&MockAdapter{}] *)
Definition mock : MockAdapter := {| open := false; writeData := [] |}.

(** [&USBAdapter{}] with its listener map: no device was found. *)
Definition usb_without_device : USBAdapter :=
  {| device := None; ctx := None; outEndpoint := None; inEndpoint := None;
     iface := None; eventListeners := fun _ => []; isOpen := false |}.

(** An open USB adapter on the given output endpoint. *)
Definition usb_on (ep : gousb.OutEndpoint) : USBAdapter :=
  {| device := None; ctx := None; outEndpoint := Some ep; inEndpoint := None;
     iface := None; eventListeners := fun _ => []; isOpen := true |}.

(** An endpoint that takes at most two bytes per transfer and reports no
    error. *)
Definition two_byte_endpoint : gousb.OutEndpoint :=
  {| gousb.out_Write := fun data => (Z.min (len data) 2, None) |}.

(** An endpoint on which every transfer fails. *)
Definition dead_endpoint : gousb.OutEndpoint :=
  {| gousb.out_Write := fun _ => (0, Some "libusb: i/o error") |}.

(** An endpoint that takes everything. *)
Definition good_endpoint : gousb.OutEndpoint :=
  {| gousb.out_Write := fun data => (len data, None) |}.

Definition io_EOF : error := "EOF".

(** A client that sends three bytes, then one, then closes. *)
Definition client_3_1 : list (bytes * option error) :=
  [ ([Byte.x01; Byte.x02; Byte.x03], None);
    ([Byte.x04], None);
    ([], Some io_EOF) ].

(** A client that sends one byte, then another, then closes. *)
Definition client_1_1 : list (bytes * option error) :=
  [ ([Byte.x01], None); ([Byte.x02], None); ([], Some io_EOF) ].

(** [server.New(&MockAdapter{}, "localhost:9101")], nothing started. *)
Definition fresh_server : State MockAdapter :=
  {| srv := New "localhost:9101"; dev := mock; net := idle_net |}.

(** The same server after a successful [StartAsync]. *)
Definition started_server : State MockAdapter :=
  st (StartAsync_rest (st (StartAsync fresh_server))).

(** A server on a USB adapter that has no device. *)
Definition usb_server : State USBAdapter :=
  {| srv := New "localhost:9101"; dev := usb_without_device; net := idle_net |}.

(** [TestServerStartStop] up to the call of [Stop]: [StartAsync] has
    returned nil, its accept loop is about to call [Accept], [Stop] has set
    running to false and is about to close the listener. *)
Definition stop_called : World MockAdapter :=
  {| state :=
       {| srv := {| listener := Some 3%nat; address := "localhost:9101";
                    running := false; wg := 1 |};
          dev := {| open := true; writeData := [] |};
          net := {| bound := [(3%nat, "localhost:9101")]; next_fd := 4%nat;
                    bindable := fun _ => true |} |};
     pool := [Returned MStartAsync None; acceptConnections_top InGoroutine;
              Stop_listener (Some 3%nat)];
     calls := [(0%nat, CallIsOpen false); (0%nat, CallOpen None)] |}.

(** Later: the listener is closed, the accept loop has ended, [Stop] is in
    [s.wg.Wait()]; the device is still open. *)
Definition stop_waiting : World MockAdapter :=
  {| state :=
       {| srv := {| listener := Some 3%nat; address := "localhost:9101";
                    running := false; wg := 1 |};
          dev := {| open := true; writeData := [] |};
          net := {| bound := []; next_fd := 4%nat;
                    bindable := fun _ => true |} |};
     pool := [Returned MStartAsync None; Exited; Stop_Wait];
     calls := [(0%nat, CallIsOpen false); (0%nat, CallOpen None)] |}.

(** After [StartAsync] on the mock returned nil. *)
Definition accepting : World MockAdapter :=
  {| state :=
       {| srv := {| listener := Some 3%nat; address := "localhost:9101";
                    running := true; wg := 1 |};
          dev := {| open := true; writeData := [] |};
          net := {| bound := [(3%nat, "localhost:9101")]; next_fd := 4%nat;
                    bindable := fun _ => true |} |};
     pool := [Returned MStartAsync None; acceptConnections_top InGoroutine];
     calls := [(0%nat, CallIsOpen false); (0%nat, CallOpen None)] |}.

(** [TestServerStartBlocking] without the client: [Start] in one
    goroutine, [Stop] in another, both returned. *)
Definition start_then_stop : list Choice :=
  [Invoke MStart; Invoke MStop;
   Resume 1 NoInput; Resume 1 NoInput; Resume 1 NoInput; Resume 1 NoInput;
   Resume 0 NoInput; Resume 0 (AcceptError "use of closed network connection")].

Definition stopped : World MockAdapter :=
  {| state :=
       {| srv := {| listener := Some 3%nat; address := "localhost:9101";
                    running := false; wg := 0 |};
          dev := {| open := false; writeData := [] |};
          net := {| bound := []; next_fd := 4%nat;
                    bindable := fun _ => true |} |};
     pool := [Returned MStart None; Returned MStop None];
     calls := [(0%nat, CallIsOpen false); (0%nat, CallOpen None);
               (1%nat, CallIsOpen true); (1%nat, CallClose None)] |}.

(** After [Start] on the USB adapter without a device returned its
    error. *)
Definition open_failed : World USBAdapter :=
  {| state :=
       {| srv := {| listener := Some 3%nat; address := "localhost:9101";
                    running := false; wg := 0 |};
          dev := usb_without_device;
          net := {| bound := []; next_fd := 4%nat;
                    bindable := fun _ => true |} |};
     pool := [Returned MStart
                (Some "failed to open adapter: device not found")];
     calls := [(0%nat, CallIsOpen false);
               (0%nat, CallOpen (Some "device not found"))] |}.

(** An open USB adapter on an endpoint that takes everything, its mutex
    free. *)
Definition usb_ready : LockedUSB :=
  {| usb := usb_on good_endpoint; mu := None |}.

(** Two clients of the mock, one byte each, and the goroutines taking
    turns. *)
Definition two_clients : list (list (bytes * option error)) :=
  [ [([Byte.x01], None)]; [([Byte.x02], None)] ].


(** On the USB adapter: both goroutines have read, the first takes the
    mutex and goes through its write, then the second. *)
Definition one_after_the_other : list nat := [0; 1; 0; 0; 0; 0; 1; 1; 1; 1]%nat.

End scenario.

(* ================================================================== *)
(** * Package [adapter]: finding the device *)

Module discovery.
Import adapter.

(** A device opened by a scan: its handle, and what [dev.SerialNumber()]
    reports. *)
Record Attached := {
  handle : gousb.Device;
  SerialNumber : string + error
}.

(** A context made by [gousb.NewContext()], with what its searches return:
    [ctx.OpenDevices] under a filter that takes every device, and
    [ctx.OpenDeviceWithVIDPID]. *)
Record Bus := {
  context : gousb.Context;
  OpenDevices : list Attached * option error;
  OpenDeviceWithVIDPID : Z -> Z -> option gousb.Device * option error
}.

(** What a search gives back to the library; a device is named by its
    place in the slice [OpenDevices] returned. *)
Inductive Release :=
| Config_Close (i : nat)
| Device_Close (i : nat)
| Context_Close.

#[global] Instance Release_eq_dec : EqDecision Release.
Proof. solve_decision. Defined.

(** The inner loop of [IsPrinter]: some alternate setting is of class
    printer. *)
Definition printer_alt (iface : gousb.InterfaceDesc) : bool :=
  existsb (fun alt => gousb.Class alt =? IfaceClassPrinter)
          (gousb.AltSettings iface).

(** [func IsPrinter]: the answer, and the deferred [cfgDesc.Close()] when
    the configuration was obtained. *)
Definition IsPrinter (dev : option gousb.Device) : bool * list Effect :=
  match dev with
  | None => (false, [])
  | Some d =>
      match gousb.dev_ActiveConfigNum d with
      | inr _ => (false, [])
      | inl cfg =>
          match gousb.dev_Config d cfg with
          | inr _ => (false, [])
          | inl cfgDesc =>
              (existsb printer_alt (gousb.Desc_Interfaces cfgDesc),
               [ConfigClose])
          end
      end
  end.

(** The loop of [FindPrinters] from the device at place [i] on. *)
Fixpoint scan_printers (i : nat) (devices : list Attached)
  : list gousb.Device * list Release :=
  match devices with
  | [] => ([], [])
  | dev :: rest =>
      let '(printer, closed) := IsPrinter (Some (handle dev)) in
      let '(printers, released) := scan_printers (S i) rest in
      let cfg := map (fun _ => Config_Close i) closed in
      if printer
      then (handle dev :: printers, cfg ++ released)
      else (printers, cfg ++ Device_Close i :: released)
  end.

(** [func FindPrinters]. *)
Definition FindPrinters (b : Bus) : list gousb.Device * list Release :=
  match OpenDevices b with
  | (_, Some _) => ([], [])
  | (devices, None) => scan_printers 0 devices
  end.

(** [&USBAdapter{ctx: ctx, eventListeners: make(...)}]. *)
Definition blank (b : Bus) : USBAdapter :=
  {| device := None; ctx := Some (context b); outEndpoint := None;
     inEndpoint := None; iface := None; eventListeners := fun _ => [];
     isOpen := false |}.

Definition set_device (d : option gousb.Device) (a : USBAdapter) : USBAdapter :=
  {| device := d; ctx := ctx a; outEndpoint := outEndpoint a;
     inEndpoint := inEndpoint a; iface := iface a;
     eventListeners := eventListeners a; isOpen := isOpen a |}.

(** [func NewUSBAdapterAuto]. *)
Definition NewUSBAdapterAuto (b : Bus) : (USBAdapter + error) * list Release :=
  match FindPrinters b with
  | ([], released) => (inr "cannot find printer", released ++ [Context_Close])
  | (first :: _, released) => (inl (set_device (Some first) (blank b)), released)
  end.

(** [func NewUSBAdapter]. *)
Definition NewUSBAdapter (vid pid : Z) (b : Bus)
  : (USBAdapter + error) * list Release :=
  match OpenDeviceWithVIDPID b vid pid with
  | (Some device, None) => (inl (set_device (Some device) (blank b)), [])
  | _ =>
      match FindPrinters b with
      | ([], released) =>
          (inr "cannot find printer", released ++ [Context_Close])
      | (first :: _, released) =>
          (inl (set_device (Some first) (blank b)), released)
      end
  end.

(** [func GetDeviceByVIDPID]. *)
Definition GetDeviceByVIDPID (b : Bus) (vid pid : Z) : gousb.Device + error :=
  match OpenDeviceWithVIDPID b vid pid with
  | (_, Some err) => inr err
  | (None, None) => inr "device not found"
  | (Some device, None) => inl device
  end.

(** The places [0 .. n-1] but [i]: the devices closed by the inner loop of
    [GetDeviceBySerial]. *)
Definition others (n i : nat) : list nat :=
  List.filter (fun j => negb (Nat.eqb j i)) (seq 0 n).

(** The loop of [GetDeviceBySerial] from the device at place [i] on; [n] is
    the length of the whole slice. *)
Fixpoint serial_scan (serial : string) (n i : nat) (devices : list Attached)
  : option gousb.Device * list Release :=
  match devices with
  | [] => (None, [])
  | dev :: rest =>
      match SerialNumber dev with
      | inl s =>
          if String.eqb s serial
          then (Some (handle dev), map Device_Close (others n i))
          else
            let '(found, released) := serial_scan serial n (S i) rest in
            (found, Device_Close i :: released)
      | inr _ =>
          let '(found, released) := serial_scan serial n (S i) rest in
          (found, Device_Close i :: released)
      end
  end.

(** [func GetDeviceBySerial]. *)
Definition GetDeviceBySerial (b : Bus) (serial : string)
  : (gousb.Device + error) * list Release :=
  match OpenDevices b with
  | (_, Some err) => (inr err, [])
  | (devices, None) =>
      match serial_scan serial (length devices) 0 devices with
      | (Some dev, released) => (inl dev, released)
      | (None, released) =>
          (inr "device with serial number not found", released)
      end
  end.

(** The place of the first device whose serial number is [serial]. *)
Fixpoint first_match (serial : string) (i : nat) (devices : list Attached)
  : option nat :=
  match devices with
  | [] => None
  | dev :: rest =>
      match SerialNumber dev with
      | inl s => if String.eqb s serial then Some i
                 else first_match serial (S i) rest
      | inr _ => first_match serial (S i) rest
      end
  end.

(** [IsPrinter] on a device of the scan. *)
Definition is_printer (dev : Attached) : bool :=
  (IsPrinter (Some (handle dev))).1.

(** How often the device at place [i] is closed. *)
Definition closes (i : nat) (released : list Release) : nat :=
  length (List.filter (fun r => bool_decide (r = Device_Close i)) released).

End discovery.

(* ================================================================== *)
(** * Package [main] *)

Module program.
Import adapter server discovery.


    (* inside [svr.Start()], in the accept loop *)


End program.

(* ================================================================== *)
(** * What the write path reads from the log *)

Module order.
Import adapter serialize.

(** The data of the writes goroutine [tid] began, in the order of the
    log. *)
Definition begun_by (tid : nat) (l : list Ev) : list bytes :=
  map snd (List.filter (fun q => Nat.eqb (fst q) tid) (begun l)).

(** The chunks [handleConnection] hands to [Write] if nothing stops it:
    the data of the reads without error that hold a byte, up to the first
    read with an error. *)
Fixpoint chunks (reads : list (bytes * option error)) : list bytes :=
  match reads with
  | [] => []
  | (_, Some _) :: _ => []
  | (data, None) :: rest =>
      if 0 <? len data then data :: chunks rest else chunks rest
  end.

(** The chunks a forwarding goroutine has still to begin writing. *)
Definition pending (t : Fwd UsbPc) : list bytes :=
  match t with
  | F_Read reads => chunks reads
  | F_Write (U_Lock data) rest => data :: chunks rest
  | F_Write _ rest => chunks rest
  | F_Return => []
  end.

(** The writes a goroutine began are the first chunks of its connection,
    and until it returns the rest is what it has pending. *)
Definition in_order (reads : list (bytes * option error)) (tid : nat)
    (l : list Ev) (t : Fwd UsbPc) : Prop :=
  match t with
  | F_Return => begun_by tid l `prefix_of` chunks reads
  | _ => chunks reads = begun_by tid l ++ pending t
  end.

End order.

(* ================================================================== *)
(** * Where the listener is bound *)

Module binding.
Import adapter server.

(** A running server holds a listener bound at the server's address. *)
Definition bound_at {A : Type} (s : State A) : Prop :=
  running (srv s) = true ->
  exists l, listener (srv s) = Some l /\
            (l, address (srv s)) ∈ bound (net s).

End binding.

(* ================================================================== *)
(** * Reading the effects of an adapter method *)

Module effect.
Import adapter.

Definition is_ConfigClose (e : Effect) : bool :=
  match e with ConfigClose => true | _ => false end.

Definition is_EndpointWrite (e : Effect) : bool :=
  match e with EndpointWrite _ => true | _ => false end.

(** The configuration of the device, when [Open] gets as far as obtaining
    it. *)
Definition config_of (a : USBAdapter) : option gousb.Config :=
  if isOpen a then None else
  match device a with
  | None => None
  | Some d =>
      match gousb.dev_ActiveConfigNum d with
      | inr _ => None
      | inl cfgNum =>
          match gousb.dev_Config d cfgNum with
          | inr _ => None
          | inl cfg => Some cfg
          end
      end
  end.

End effect.

(* ================================================================== *)
(** * More devices for the examples *)

Module bench.
Import adapter server discovery.

Definition bulk_out : gousb.EndpointDesc :=
  {| gousb.ep_Number := 1; gousb.ep_Direction := gousb.EndpointDirectionOut |}.

Definition bulk_in : gousb.EndpointDesc :=
  {| gousb.ep_Number := 2; gousb.ep_Direction := gousb.EndpointDirectionIn |}.

Definition printer_setting : gousb.InterfaceSetting :=
  {| gousb.Class := IfaceClassPrinter; gousb.Endpoints := [bulk_out; bulk_in] |}.

Definition hid_setting : gousb.InterfaceSetting :=
  {| gousb.Class := IfaceClassHID; gousb.Endpoints := [] |}.

Definition quiet_in : gousb.InEndpoint :=
  {| gousb.in_Read := fun buf => (buf, 0, None) |}.

Definition printer_interface : gousb.Interface :=
  {| gousb.Setting := printer_setting;
     gousb.iface_OutEndpoint := fun n =>
       if n =? 1 then inl scenario.good_endpoint else inr "no such endpoint";
     gousb.iface_InEndpoint := fun n =>
       if n =? 2 then inl quiet_in else inr "no such endpoint" |}.

(** Interface 0 is a keyboard, interface 1 the printer. *)
Definition printer_config : gousb.Config :=
  {| gousb.Desc_Interfaces :=
       [ {| gousb.Number := 0; gousb.AltSettings := [hid_setting] |};
         {| gousb.Number := 1; gousb.AltSettings := [printer_setting] |} ];
     gousb.cfg_Interface := fun n alt =>
       if (n =? 1) && (alt =? 0) then inl printer_interface
       else inr "no such interface" |}.

Definition keyboard_config : gousb.Config :=
  {| gousb.Desc_Interfaces :=
       [ {| gousb.Number := 0; gousb.AltSettings := [hid_setting] |} ];
     gousb.cfg_Interface := fun _ _ => inr "no such interface" |}.

Definition printer : gousb.Device :=
  {| gousb.dev_ActiveConfigNum := inl 1;
     gousb.dev_Config := fun n =>
       if n =? 1 then inl printer_config else inr "no such configuration";
     gousb.dev_Close := None |}.

Definition keyboard : gousb.Device :=
  {| gousb.dev_ActiveConfigNum := inl 1;
     gousb.dev_Config := fun n =>
       if n =? 1 then inl keyboard_config else inr "no such configuration";
     gousb.dev_Close := None |}.

(** A bus with a keyboard and a printer. *)
Definition desk : Bus :=
  {| context := {| gousb.ctx_Close := None |};
     OpenDevices :=
       ([ {| handle := keyboard; SerialNumber := inl "KB-1" |};
          {| handle := printer; SerialNumber := inl "TM-42" |} ], None);
     OpenDeviceWithVIDPID := fun _ _ => (None, None) |}.

(** The adapter [NewUSBAdapterAuto] makes on that bus, and the same once
    opened. *)
Definition found : USBAdapter := set_device (Some printer) (blank desk).

Definition opened : USBAdapter :=
  {| device := Some printer; ctx := Some (context desk);
     outEndpoint := Some scenario.good_endpoint; inEndpoint := Some quiet_in;
     iface := Some printer_interface; eventListeners := fun _ => [];
     isOpen := true |}.

(** A fresh server whose address is held by another listener. *)
Definition crowded : State MockAdapter :=
  {| srv := New "localhost:9101"; dev := scenario.mock;
     net := {| bound := [(3%nat, "localhost:9101")]; next_fd := 4%nat;
               bindable := fun _ => true |} |}.

(** [Start] on the mock has bound its listener and is at the head of its
    accept loop; nobody has connected. *)
Definition blocking : World MockAdapter :=
  {| state :=
       {| srv := {| listener := Some 3%nat; address := "localhost:9101";
                    running := true; wg := 0 |};
          dev := {| open := true; writeData := [] |};
          net := {| bound := [(3%nat, "localhost:9101")]; next_fd := 4%nat;
                    bindable := fun _ => true |} |};
     pool := [acceptConnections_top InStart];
     calls := [(0%nat, CallIsOpen false); (0%nat, CallOpen None)] |}.

(** The same server with one client connected, its task in [conn.Read]. *)
Definition serving : World MockAdapter :=
  {| state :=
       {| srv := {| listener := Some 3%nat; address := "localhost:9101";
                    running := true; wg := 1 |};
          dev := {| open := true; writeData := [] |};
          net := {| bound := [(3%nat, "localhost:9101")]; next_fd := 4%nat;
                    bindable := fun _ => true |} |};
     pool := [acceptConnections_top InStart; handleConnection_Read];
     calls := [(0%nat, CallIsOpen false); (0%nat, CallOpen None)] |}.

End bench.

(* ================================================================== *)
(** * Properties *)

Import adapter server.

(** ** The USB adapter *)

(** C10. [Close] on a USB adapter that is not open returns nil, leaves
    every field of the adapter as it was and calls nothing. *)
Theorem USBAdapter_Close_not_open :
  forall a : USBAdapter,
    isOpen a = false ->
    USBAdapter_Close a = mkOut a None [].
Proof.
  intros a Hclosed. unfold USBAdapter_Close. now rewrite Hclosed.
Qed.

Lemma USBAdapter_Close_not_open_witness :
  isOpen scenario.usb_without_device = false /\
  USBAdapter_Close scenario.usb_without_device
    = mkOut scenario.usb_without_device None [].
Proof.
  split; [reflexivity | apply USBAdapter_Close_not_open; reflexivity].
Defined.

(** ** The lifecycle methods, one call at a time *)

Section Lifecycle.
Context {A : Type} `{Adapter A}.

(** C6. [Start] and [StartAsync] on a running server fail with "server
    already running"; the server, the network and the device are as before,
    no call is made on the device and no goroutine is started. *)
Theorem Start_while_running :
  forall s : State A,
    running (srv s) = true ->
    Start s = {| st := s; did := []; forked := [];
                 next := Returned MStart (Some AlreadyRunning) |} /\
    StartAsync s = {| st := s; did := []; forked := [];
                      next := Returned MStartAsync (Some AlreadyRunning) |}.
Proof.
  intros s Hrun. unfold Start, StartAsync, start_locked.
  rewrite Hrun. split; reflexivity.
Qed.

(** C7. [Stop] on a server that is not running returns nil; the server, the
    network and the device are as before and no call is made on the
    device. *)
Theorem Stop_while_stopped :
  forall s : State A,
    running (srv s) = false ->
    Stop s = {| st := s; did := []; forked := [];
                next := Returned MStop None |}.
Proof.
  intros s Hrun. unfold Stop. now rewrite Hrun.
Qed.

Lemma listening_Listener_Close l n : listening l (Listener_Close l n) = false.
Proof.
  unfold listening, Listener_Close; cbn.
  induction (bound n) as [|[fd addr] rest IH]; cbn; [reflexivity|].
  destruct (Nat.eqb fd l) eqn:E; cbn; [exact IH|].
  now rewrite E.
Qed.

Lemma in_use_Listener_Close_fresh addr l n :
  in_use addr n = false ->
  in_use addr
    (Listener_Close l
       {| bound := (l, addr) :: bound n; next_fd := S (next_fd n);
          bindable := bindable n |}) = false.
Proof.
  unfold in_use, Listener_Close; cbn. rewrite Nat.eqb_refl; cbn.
  induction (bound n) as [|[fd a] rest IH]; cbn; [reflexivity|].
  intros Hfree. apply orb_false_iff in Hfree as [Ha Hrest].
  destruct (Nat.eqb fd l); cbn; [now apply IH|].
  rewrite Ha. now apply IH.
Qed.

Lemma net_Listen_inl addr n n1 l :
  net_Listen addr n = (n1, inl l) ->
  bindable n addr = true /\ in_use addr n = false /\ l = next_fd n /\
  n1 = {| bound := (l, addr) :: bound n; next_fd := S (next_fd n);
          bindable := bindable n |}.
Proof.
  unfold net_Listen.
  destruct (bindable n addr); cbn; [|discriminate].
  destruct (in_use addr n); [discriminate|].
  intros [= <- <-]. auto.
Qed.

Lemma net_Listen_free addr n :
  bindable n addr = true -> in_use addr n = false ->
  net_Listen addr n =
    ({| bound := (next_fd n, addr) :: bound n; next_fd := S (next_fd n);
        bindable := bindable n |}, inl (next_fd n)).
Proof. intros Hb Hu. unfold net_Listen. now rewrite Hb, Hu. Qed.

(** The state of the shared body after a failed device open. *)
Lemma start_locked_open_failed m k (s : State A) n1 l d1 err :
  running (srv s) = false ->
  net_Listen (address (srv s)) (net s) = (n1, inl l) ->
  IsOpen (dev s) = false ->
  Open (dev s) = (d1, Some err) ->
  start_locked m k s =
    {| st := {| srv := set_running false
                         (set_running true (set_listener (Some l) (srv s)));
                dev := d1; net := Listener_Close l n1 |};
       did := [CallIsOpen false; CallOpen (Some err)];
       next := Returned m (Some (DeviceOpenFailed err));
       forked := [] |}.
Proof.
  intros Hrun Hbind Hclosed Hopen. unfold start_locked.
  now rewrite Hrun, Hbind, Hclosed, Hopen.
Qed.

#[local] Arguments listening : simpl never.
#[local] Arguments in_use : simpl never.
#[local] Arguments Listener_Close : simpl never.

(** The shared body on a stopped server whose address is free, when the
    device is open or opens. *)
Lemma start_locked_succeeds m k (s : State A) :
  running (srv s) = false ->
  bindable (net s) (address (srv s)) = true ->
  in_use (address (srv s)) (net s) = false ->
  (IsOpen (dev s) = false -> snd (Open (dev s)) = None) ->
  next (start_locked m k s) = k /\
  running (srv (st (start_locked m k s))) = true /\
  in_use (address (srv s)) (net (st (start_locked m k s))) = true.
Proof.
  intros Hrun Hb Hu Hdev. unfold start_locked.
  rewrite Hrun, (net_Listen_free _ _ Hb Hu).
  assert (Hin : forall rest fd,
    in_use (address (srv s))
      {| bound := (next_fd (net s), address (srv s)) :: rest;
         next_fd := fd; bindable := bindable (net s) |} = true).
  { intros rest fd. unfold in_use; cbn. now rewrite String.eqb_refl. }
  destruct (IsOpen (dev s)); cbn.
  - repeat split; apply Hin.
  - specialize (Hdev eq_refl).
    destruct (Open (dev s)) as [d1 [e|]]; cbn in *; [discriminate|].
    repeat split; apply Hin.
Qed.

(** C8. When the bind succeeds and the device's [Open] fails, [Start] and
    [StartAsync] close the listener they bound, set running back to false
    and fail with "failed to open adapter"; afterwards [IsRunning] is false,
    the address is bound by nobody, and a further [Start] or [StartAsync]
    binds it again and succeeds as soon as the device is open or opens. *)
Theorem Start_device_open_failed :
  forall (m : Method) (s : State A) (n1 : Net) (l : Listener) (d1 : A)
         (err : error),
    m <> MStop ->
    running (srv s) = false ->
    net_Listen (address (srv s)) (net s) = (n1, inl l) ->
    IsOpen (dev s) = false ->
    Open (dev s) = (d1, Some err) ->
    let p := invoke m s in
    next p = Returned m (Some (DeviceOpenFailed err)) /\
    did p = [CallIsOpen false; CallOpen (Some err)] /\
    forked p = [] /\
    listening l n1 = true /\
    listening l (net (st p)) = false /\
    in_use (address (srv s)) (net (st p)) = false /\
    IsRunning (st p) = false /\
    Address (st p) = Address s /\
    forall m' : Method,
      m' <> MStop ->
      (IsOpen d1 = false -> snd (Open d1) = None) ->
      let p' := invoke m' (st p) in
      IsRunning (st p') = true /\
      in_use (address (srv s)) (net (st p')) = true /\
      next p' = match m' with
                | MStart => acceptConnections_top InStart
                | _ => StartAsync_Add
                end.
Proof.
  intros m s n1 l d1 err Hm Hrun Hbind Hclosed Hopen p.
  assert (Hp : exists k, p = start_locked m k s).
  { subst p. destruct m; [eexists; reflexivity.. | contradiction]. }
  destruct Hp as [k Hp].
  rewrite (start_locked_open_failed _ _ _ _ _ _ _ Hrun Hbind Hclosed Hopen) in Hp.
  destruct (net_Listen_inl _ _ _ _ Hbind) as (Hb & Hu & -> & ->).
  rewrite Hp; cbn.
  do 3 (split; [reflexivity|]).
  split; [unfold listening; cbn; now rewrite Nat.eqb_refl|].
  split; [apply listening_Listener_Close|].
  split; [now apply in_use_Listener_Close_fresh|].
  do 2 (split; [reflexivity|]).
  - intros m' Hm' Hdev.
    set (s1 := {| srv := _; dev := d1; net := _ |}) in *.
    assert (Hfree : in_use (address (srv s1)) (net s1) = false)
      by now apply in_use_Listener_Close_fresh.
    assert (Hok := fun k' => start_locked_succeeds m' k' s1 eq_refl Hb Hfree Hdev).
    destruct m'; [| |contradiction]; cbn [invoke];
      unfold Start, StartAsync, IsRunning.
    + destruct (Hok (acceptConnections_top InStart)) as (-> & -> & Hin). auto.
    + destruct (Hok StartAsync_Add) as (-> & -> & Hin). auto.
Qed.

End Lifecycle.

Lemma Start_while_running_witness :
  running (srv scenario.started_server) = true /\
  Start scenario.started_server
    = {| st := scenario.started_server; did := []; forked := [];
         next := Returned MStart (Some AlreadyRunning) |} /\
  StartAsync scenario.started_server
    = {| st := scenario.started_server; did := []; forked := [];
         next := Returned MStartAsync (Some AlreadyRunning) |}.
Proof.
  split; [reflexivity | apply Start_while_running; reflexivity].
Defined.

Lemma Stop_while_stopped_witness :
  running (srv scenario.fresh_server) = false /\
  Stop scenario.fresh_server
    = {| st := scenario.fresh_server; did := []; forked := [];
         next := Returned MStop None |}.
Proof.
  split; [reflexivity | apply Stop_while_stopped; reflexivity].
Defined.

Lemma Start_device_open_failed_witness :
  let H := USBAdapter_Adapter "linux" in
  let p := invoke MStartAsync scenario.usb_server in
  next p = Returned MStartAsync (Some (DeviceOpenFailed "device not found")) /\
  IsRunning (st p) = false /\
  in_use "localhost:9101" (net (st p)) = false.
Proof.
  intros H p.
  pose proof (@Start_device_open_failed USBAdapter H MStartAsync
                scenario.usb_server
                {| bound := [(3%nat, "localhost:9101")]; next_fd := 4%nat;
                   bindable := fun _ => true |}
                3%nat scenario.usb_without_device "device not found"
                ltac:(discriminate) eq_refl eq_refl eq_refl eq_refl) as Hw.
  cbv zeta in Hw. fold p in Hw.
  destruct Hw as (Hnext & _ & _ & _ & _ & Hfree & Hrun & _).
  auto.
Defined.

(** ** One connection *)

Section OneConnection.
Context {A : Type} `{Adapter A}.

(** C2, as the code has it.  After a read of [n > 0] bytes the task calls
    [Write] once, on exactly those bytes.  It returns, closing the
    connection, exactly when that call reports an error, whatever the count
    reported with it; when the error is nil it goes on to the next read,
    whatever the count: the bytes a short write left out are not retried,
    and a short count alone does not end the task. *)
Theorem handleConnection_after_Write :
  forall (data : bytes) (rest : list (bytes * option error)) (d d1 : A)
         (written : Z) (writeErr : option error),
    0 < len data ->
    Write data d = (d1, (written, writeErr)) ->
    handleConnection ((data, None) :: rest) d =
      match writeErr with
      | Some _ => (d1, [CallWrite data written writeErr], true)
      | None =>
          let '(d2, cs, returned) := handleConnection rest d1 in
          (d2, CallWrite data written None :: cs, returned)
      end.
Proof.
  intros data rest d d1 written writeErr Hn Hw.
  cbn [handleConnection]. unfold forward.
  apply Z.ltb_lt in Hn. rewrite Hn, Hw.
  destruct writeErr; [reflexivity|].
  now destruct (handleConnection rest d1) as [[d2 cs] r].
Qed.

Lemma len_0_nil {T} (l : list T) : (0 <? len l) = false -> l = [].
Proof.
  destruct l; [reflexivity|]. unfold len; cbn [length].
  intros Hl. apply Z.ltb_ge in Hl. lia.
Qed.

(** C5, as the code has it.  The data of the write calls of one
    connection's task, joined in call order, are a prefix of what the client
    sent, and are all of it when the connection was read to its end and no
    write call reported an error. *)
Theorem forwarded_prefix_of_sent :
  forall (chunks : list bytes) (fin : option error) (d : A),
    let cs := (handleConnection (delivery chunks fin) d).1.2 in
    forwarded cs `prefix_of` concat chunks /\
    (forallb call_ok cs = true -> forwarded cs = concat chunks).
Proof.
  intros chunks fin. unfold delivery.
  induction chunks as [|c chunks IH]; intros d.
  - destruct fin; cbn; split; auto; by exists [].
  - cbn [map app handleConnection concat]. unfold forward.
    destruct (0 <? len c) eqn:Hn.
    + destruct (Write c d) as [d1 [written [e|]]]; cbn.
      * split; [|discriminate].
        exists (concat chunks). now rewrite app_nil_r.
      * specialize (IH d1).
        destruct (handleConnection _ d1) as [[d2 cs'] r]; cbn in *.
        destruct IH as [[k Hk] Hall]. split.
        -- exists k. rewrite Hk. now rewrite app_assoc.
        -- intros Hok. now rewrite Hall.
    + apply len_0_nil in Hn. subst c. specialize (IH d).
      destruct (handleConnection _ d) as [[d2 cs'] r]; cbn in *. exact IH.
Qed.

End OneConnection.

(** C2 does not hold as stated: on an endpoint that takes two bytes per
    transfer, the write of three bytes returns the count 2 with a nil error,
    and the task goes on: it reads and writes the next byte and returns only
    at the end of the stream. *)
Lemma short_write_does_not_end_the_task :
  let H := USBAdapter_Adapter "linux" in
  let d := scenario.usb_on scenario.two_byte_endpoint in
  Write [Byte.x01; Byte.x02; Byte.x03] d = (d, (2, None)) /\
  2 < len [Byte.x01; Byte.x02; Byte.x03] /\
  handleConnection scenario.client_3_1 d
    = (d, [CallWrite [Byte.x01; Byte.x02; Byte.x03] 2 None;
           CallWrite [Byte.x04] 1 None], true).
Proof. repeat split. Qed.

Lemma handleConnection_after_Write_witness :
  let H := USBAdapter_Adapter "linux" in
  let d := scenario.usb_on scenario.dead_endpoint in
  handleConnection scenario.client_1_1 d
    = (d, [CallWrite [Byte.x01] 0 (Some "write failed: libusb: i/o error")],
       true).
Proof.
  intros H d.
  exact (@handleConnection_after_Write USBAdapter H
           [Byte.x01] (tl scenario.client_1_1) d d 0
           (Some "write failed: libusb: i/o error")
           ltac:(reflexivity) eq_refl).
Defined.

(** C5 does not hold as stated: the client sends the bytes 01 02, the first
    write fails, the task returns, and 02 is never handed to the device. *)
Lemma write_error_loses_the_rest :
  let H := USBAdapter_Adapter "linux" in
  let d := scenario.usb_on scenario.dead_endpoint in
  let cs := (handleConnection scenario.client_1_1 d).1.2 in
  concat (map fst scenario.client_1_1) = [Byte.x01; Byte.x02] /\
  forwarded cs = [Byte.x01] /\
  forwarded cs <> concat (map fst scenario.client_1_1).
Proof. repeat split. discriminate. Qed.

Lemma forwarded_prefix_of_sent_witness :
  let H := USBAdapter_Adapter "linux" in
  let d := scenario.usb_on scenario.good_endpoint in
  let cs := (handleConnection scenario.client_3_1 d).1.2 in
  forallb call_ok cs = true /\
  forwarded cs = [Byte.x01; Byte.x02; Byte.x03; Byte.x04].
Proof.
  intros H d cs. split; [reflexivity|].
  exact (proj2 (@forwarded_prefix_of_sent USBAdapter H
                  [[Byte.x01; Byte.x02; Byte.x03]; [Byte.x04]]
                  (Some scenario.io_EOF) d) eq_refl).
Defined.

(** ** All goroutines together *)

Section Machine.
Context {A : Type} `{Adapter A}.

Lemma run_invariant (I : World A -> Prop) :
  (forall c w w', I w -> step c w = Some w' -> I w') ->
  forall cs w w', I w -> run cs w = Some w' -> I w'.
Proof.
  intros Hstep cs. induction cs as [|c cs IH]; intros w w' Hw; cbn.
  - now intros [= <-].
  - destruct (step c w) as [w1|] eqn:E; [|discriminate].
    apply IH. now apply (Hstep c w).
Qed.

(** What a step is made of. *)
Lemma step_cases c (w w' : World A) :
  step c w = Some w' ->
  exists old tid p,
    piece_of old p (state w) /\
    placed old tid (pool w) (next p) (forked p) (pool w') /\
    state w' = st p /\
    calls w' = calls w ++ map (pair tid) (did p).
Proof.
  destruct c as [m|tid i]; cbn.
  - intros [= <-]. exists None, (length (pool w)), (invoke m (state w)).
    cbn. eauto 10.
  - destruct (pool w !! tid) as [t|] eqn:Ht; [|discriminate].
    destruct (resume t i (state w)) as [p|] eqn:Hp; [|discriminate].
    intros [= <-]. exists (Some t), tid, p. cbn. eauto 10.
Qed.

(** Where the goroutines of the new pool come from. *)
Lemma placed_lookup old tid ts x fk np j u :
  placed old tid ts x fk np ->
  np !! j = Some u ->
  (j = tid /\ u = x) \/
  (j <> tid /\ ts !! j = Some u) \/
  (j <> tid /\ (length ts <= j)%nat /\ u ∈ fk).
Proof.
  destruct old as [t|]; cbn; intros [Ht ->] Hj.
  - apply lookup_lt_Some in Ht as Hlt.
    destruct (decide (j = tid)) as [->|Hne].
    + left. split; [reflexivity|].
      rewrite lookup_app_l in Hj by now rewrite length_insert.
      rewrite list_lookup_insert_eq in Hj by assumption. congruence.
    + right. destruct (decide (j < length ts)%nat) as [Hlt'|Hge].
      * left. rewrite lookup_app_l in Hj by now rewrite length_insert.
        rewrite list_lookup_insert_ne in Hj by congruence. auto.
      * right. rewrite lookup_app_r in Hj by (rewrite length_insert; lia).
        split; [assumption|]. split; [lia|].
        eapply list_elem_of_lookup_2; eassumption.
  - subst tid. destruct (decide (j < length ts)%nat) as [Hlt|Hge].
    + right; left. split; [lia|].
      rewrite <- app_assoc in Hj. now rewrite lookup_app_l in Hj.
    + destruct (decide (j = length ts)) as [->|Hne].
      * left. split; [reflexivity|].
        rewrite <- app_assoc, lookup_app_r in Hj by lia.
        rewrite Nat.sub_diag in Hj. cbn in Hj. congruence.
      * right; right. split; [assumption|]. split; [lia|].
        rewrite <- app_assoc, lookup_app_r in Hj by lia.
        destruct (j - length ts)%nat as [|k] eqn:Hk; [lia|]. cbn in Hj.
        eapply list_elem_of_lookup_2; eassumption.
Qed.

Lemma placed_length old tid ts x fk np :
  placed old tid ts x fk np ->
  (length ts <= length np)%nat /\ (tid < length np)%nat.
Proof.
  destruct old as [t|]; cbn; intros [Ht ->].
  - apply lookup_lt_Some in Ht.
    rewrite length_app, length_insert. lia.
  - subst tid. rewrite !length_app; cbn. lia.
Qed.

Lemma placed_old old tid ts x fk np j u :
  placed old tid ts x fk np ->
  j <> tid -> ts !! j = Some u -> np !! j = Some u.
Proof.
  destruct old as [t|]; cbn; intros [Ht ->] Hne Hj.
  - apply lookup_lt_Some in Hj as Hlt.
    rewrite lookup_app_l by now rewrite length_insert.
    now rewrite list_lookup_insert_ne by congruence.
  - apply lookup_lt_Some in Hj as Hlt.
    rewrite <- app_assoc. now rewrite lookup_app_l.
Qed.

(** Case analysis on the piece that ran. *)
Ltac piece_cases Hp :=
  match type of Hp with
  | piece_of ?old _ _ =>
      destruct old as [[]|]; cbn [piece_of] in Hp;
      [ destruct Hp as [? Hp]; cbn [resume] in Hp .. | destruct Hp as [[] ->] ];
      unfold invoke in *;
      unfold acceptConnections_call, acceptConnections_resume,
             handleConnection_resume, forward, Stop_resume, StartAsync_rest,
             Start, StartAsync, Stop, start_locked, accept_return, with_srv
        in *;
      repeat case_match; simplify_eq
  end.

(** *** The wait group *)

Lemma weight_nonneg t : 0 <= weight t.
Proof. destruct t as [| | | | | | | |[] []|]; cbn; lia. Qed.

Lemma total_app ts us : total (ts ++ us) = total ts + total us.
Proof. induction ts as [|t ts IH]; cbn [total app]; lia. Qed.

Lemma total_nonneg ts : 0 <= total ts.
Proof.
  induction ts as [|t ts IH]; cbn [total]; [lia|].
  pose proof (weight_nonneg t). lia.
Qed.

Lemma total_insert ts tid t x :
  ts !! tid = Some t -> total (<[tid := x]> ts) = total ts - weight t + weight x.
Proof.
  revert tid. induction ts as [|u ts IH]; intros [|tid] Ht;
    cbn in Ht; try discriminate.
  - injection Ht as ->. cbn. lia.
  - change (<[S tid := x]> (u :: ts)) with (u :: <[tid := x]> ts).
    cbn [total]. rewrite (IH _ Ht). lia.
Qed.

Lemma total_lookup ts tid t : ts !! tid = Some t -> weight t <= total ts.
Proof.
  revert tid. induction ts as [|u ts IH]; intros [|tid]; cbn; try discriminate.
  - intros [= ->]. pose proof (total_nonneg ts). lia.
  - intros Ht. pose proof (weight_nonneg u). specialize (IH _ Ht). lia.
Qed.

Lemma placed_total old tid ts x fk np :
  placed old tid ts x fk np ->
  total np = total ts - from_option weight 0 old + weight x + total fk.
Proof.
  destruct old as [t|]; cbn [placed from_option]; intros [Ht ->].
  - rewrite total_app, (total_insert _ _ _ _ Ht). lia.
  - rewrite !total_app. cbn. lia.
Qed.

Lemma piece_wg old p (s : State A) :
  piece_of old p s ->
  wg (srv (st p)) =
    wg (srv s) - from_option weight 0 old + weight (next p) + total (forked p).
Proof.
  intros Hp. piece_cases Hp; cbn; try lia.
  all: match goal with f : Frame |- _ => destruct f; cbn; lia end.
Qed.

(** The counter of the wait group is the number of unanswered [Add(1)]. *)
Lemma wg_counts c (w w' : World A) :
  wg (srv (state w)) = total (pool w) ->
  step c w = Some w' ->
  wg (srv (state w')) = total (pool w').
Proof.
  intros Hw Hs.
  destruct (step_cases _ _ _ Hs) as (old & tid & p & Hp & Hpl & -> & _).
  rewrite (piece_wg _ _ _ Hp), (placed_total _ _ _ _ _ _ Hpl). lia.
Qed.

Lemma Returned_stays c (w w' : World A) a m e :
  step c w = Some w' ->
  pool w !! a = Some (Returned m e) ->
  pool w' !! a = Some (Returned m e).
Proof.
  intros Hs Ha.
  destruct (step_cases _ _ _ Hs) as (old & tid & p & Hp & Hpl & _ & _).
  destruct (decide (a = tid)) as [->|Hne];
    [|eapply placed_old; eassumption].
  exfalso. destruct old as [t|]; cbn in Hpl, Hp.
  - destruct Hpl as [Ht _]. rewrite Ha in Ht. injection Ht as <-.
    destruct Hp as [i Hp]. discriminate.
  - destruct Hpl as [-> _]. apply lookup_lt_Some in Ha. lia.
Qed.

Lemma draining_stays c (w w' : World A) tid t :
  0 < wg (srv (state w)) ->
  step c w = Some w' ->
  pool w !! tid = Some t -> draining t = true ->
  exists t', pool w' !! tid = Some t' /\ draining t' = true.
Proof.
  intros Hwg Hs Ht Hd.
  destruct (step_cases _ _ _ Hs) as (old & tid' & p & Hp & Hpl & _ & _).
  destruct (decide (tid = tid')) as [<-|Hne];
    [|exists t; split; [eapply placed_old; eassumption | assumption]].
  destruct old as [t0|]; cbn in Hpl, Hp.
  - destruct Hpl as [Ht0 ->]. rewrite Ht in Ht0. injection Ht0 as <-.
    apply lookup_lt_Some in Ht as Hlt.
    exists (next p). split.
    + rewrite lookup_app_l by now rewrite length_insert.
      now apply list_lookup_insert_eq.
    + destruct Hp as [i Hp].
      destruct t; try discriminate; cbn in Hp.
      * now injection Hp as <-.
      * destruct (Z.eqb_spec (wg (srv (state w))) 0); [lia | discriminate].
  - destruct Hpl as [-> _]. apply lookup_lt_Some in Ht. lia.
Qed.

(** C1 fails on the code.  Once a [StartAsync] has returned nil, the
    counter of the wait group stays positive for ever: a [Stop] that found
    the server running and has not yet come back from [s.wg.Wait()] never
    comes back, so it neither closes the device nor returns, whatever the
    other goroutines and the clients do. *)
Theorem Stop_after_StartAsync_never_returns :
  forall (address : string) (device : A) (n : Net) (cs : list Choice)
         (w : World A) (a tid : nat) (t : Task),
    run cs (boot address device n) = Some w ->
    pool w !! a = Some (Returned MStartAsync None) ->
    pool w !! tid = Some t ->
    draining t = true ->
    forall (cs' : list Choice) (w' : World A),
      run cs' w = Some w' ->
      0 < wg (srv (state w')) /\
      (forall i, resume Stop_Wait i (state w') = None) /\
      exists t', pool w' !! tid = Some t' /\ draining t' = true.
Proof.
  intros address device n cs w a tid t Hrun Ha Ht Hd cs' w' Hrun'.
  assert (Hcount : wg (srv (state w)) = total (pool w)).
  { revert Hrun. apply (run_invariant
      (fun w => wg (srv (state w)) = total (pool w))); [|reflexivity].
    intros c w0 w1. apply wg_counts. }
  set (I := fun w0 : World A =>
    wg (srv (state w0)) = total (pool w0) /\
    pool w0 !! a = Some (Returned MStartAsync None) /\
    exists t', pool w0 !! tid = Some t' /\ draining t' = true).
  assert (HI : I w') .
  { revert Hrun'. apply (run_invariant I); [|unfold I; eauto].
    intros c w0 w1 (Hc & Hr & t0 & Ht0 & Hd0) Hs.
    assert (0 < wg (srv (state w0))).
    { rewrite Hc. pose proof (total_lookup _ _ _ Hr). cbn in *. lia. }
    split; [now apply (wg_counts c w0)|].
    split; [now apply (Returned_stays c w0)|].
    now apply (draining_stays c w0 w1 tid t0). }
  destruct HI as (Hc & Hr & Hdr).
  assert (0 < wg (srv (state w'))).
  { rewrite Hc. pose proof (total_lookup _ _ _ Hr). cbn in *. lia. }
  split; [assumption|]. split; [|assumption].
  intros i. cbn. destruct (Z.eqb_spec (wg (srv (state w'))) 0); [lia|reflexivity].
Qed.

(** *** The listener *)

Lemma listening_Listener_Close_ne l l' n :
  l <> l' -> listening l (Listener_Close l' n) = listening l n.
Proof.
  intros Hne. unfold listening, Listener_Close; cbn.
  induction (bound n) as [|[fd addr] rest IH]; cbn; [reflexivity|].
  destruct (Nat.eqb_spec fd l') as [->|Hfd]; cbn.
  - destruct (Nat.eqb_spec l' l) as [->|_]; [contradiction|]. exact IH.
  - now rewrite IH.
Qed.

Lemma listening_fresh l addr rest fd b :
  listening l {| bound := (l, addr) :: rest; next_fd := fd; bindable := b |}
  = true.
Proof. unfold listening; cbn. now rewrite Nat.eqb_refl. Qed.

#[local] Arguments listening : simpl never.
#[local] Arguments Listener_Close : simpl never.

(** Use what the hypotheses say about the state before the piece. *)
Ltac saturate :=
  repeat match goal with
         | H : _ /\ _ |- _ => destruct H
         | H : exists _, _ |- _ => destruct H
         | H : _ \/ False |- _ => destruct H as [H|[]]
         | H : net_Listen _ _ = (_, inl _) |- _ =>
             apply net_Listen_inl in H as (? & ? & ? & ?)
         | Hr : running _ = true, Hi : running _ = true -> _ |- _ =>
             specialize (Hi Hr)
         | Hr : ?b = true, Hi : ?b = true -> _ |- _ => specialize (Hi Hr)
         | Hi : false = true -> _ |- _ => clear Hi
         | H : forall l', Some ?t = Some (Stop_listener (Some l')) -> _ |- _ =>
             first [ specialize (H _ eq_refl) | clear H ]
         | H : forall l', None = Some _ -> _ |- _ => clear H
         | E : listener (srv ?s) = Some ?l,
           H : forall l0, listener (srv ?s) = Some l0 -> _ |- _ =>
             specialize (H _ E)
         | H : forall l0, Some ?l = Some l0 -> _ |- _ => specialize (H _ eq_refl)
         | H : forall l0, None = Some l0 -> _ |- _ => clear H
         end;
  simplify_eq.

Lemma piece_listens old p (s : State A) :
  piece_of old p s ->
  listens s ->
  (forall l', old = Some (Stop_listener (Some l')) -> stale s l') ->
  listens (st p) /\
  (forall l', stale s l' -> stale (st p) l') /\
  (forall l', next p = Stop_listener (Some l') -> stale (st p) l') /\
  (forall l', Stop_listener (Some l') ∉ forked p).
Proof.
  intros Hp [Hrun Hfd] Hold. unfold listens, stale in *.
  piece_cases Hp; cbn in *;
    repeat match goal with
           | |- _ /\ _ => split
           | |- forall _, _ => intro
           | |- _ ∉ _ => rewrite ?elem_of_cons, elem_of_nil; intro
           end;
    saturate; cbn in *;
    try discriminate; try lia; try congruence; eauto.
  all: try (eexists; split; [reflexivity|apply listening_fresh]).
  all: try match goal with f : Frame |- _ => destruct f; discriminate end.
  all: try (intros E; injection E as E; lia).
  all: try (unfold Listener_Close; cbn; lia).
  all: try (eexists; split; [eassumption|];
            rewrite listening_Listener_Close_ne; [assumption|congruence]).
Qed.

(** C4, as the code has it.  In every state the goroutines can reach, a
    server whose running flag is true holds a listener handle, and that
    listener is open.  The converse is not claimed: [Stop] and the rollback
    after a failed [Open] close the listener and leave the handle in the
    field. *)
Theorem running_implies_listening :
  forall (address : string) (device : A) (n : Net) (cs : list Choice)
         (w : World A),
    run cs (boot address device n) = Some w ->
    running (srv (state w)) = true ->
    exists l : Listener,
      listener (srv (state w)) = Some l /\
      listening l (net (state w)) = true.
Proof.
  intros address device n cs w Hrun.
  set (I := fun w0 : World A =>
    listens (state w0) /\
    forall tid l', pool w0 !! tid = Some (Stop_listener (Some l')) ->
                   stale (state w0) l').
  assert (HI : I w).
  { revert Hrun. apply (run_invariant I).
    - intros c w0 w1 [Hl Hst] Hs.
      destruct (step_cases _ _ _ Hs) as (old & tid & p & Hp & Hpl & Es & _).
      destruct (piece_listens _ _ _ Hp Hl) as (Hl1 & Hkeep & Hnew & Hfk).
      { intros l' ->. cbn in Hpl. destruct Hpl as [Ht _]. eauto. }
      unfold I. rewrite Es. split; [assumption|].
      intros j l' Hj.
      destruct (placed_lookup _ _ _ _ _ _ _ _ Hpl Hj)
        as [[_ Hx]|[[_ Hx]|(_ & _ & Hx)]].
      + now apply Hnew.
      + apply Hkeep. eauto.
      + now apply Hfk in Hx.
    - split; [split; cbn; [discriminate|discriminate]|].
      intros tid l'. cbn. now rewrite lookup_nil. }
  destruct HI as [[Hr _] _]. exact Hr.
Qed.

(** *** The calls on the device port *)

Lemma calls_of_app tid l l' :
  calls_of tid (l ++ l') = calls_of tid l ++ calls_of tid l'.
Proof. unfold calls_of. now rewrite List.filter_app, map_app. Qed.

Lemma calls_of_mine tid cs : calls_of tid (map (pair tid) cs) = cs.
Proof.
  unfold calls_of. induction cs as [|c cs IH]; cbn; [reflexivity|].
  rewrite Nat.eqb_refl; cbn. now rewrite IH.
Qed.

Lemma calls_of_others tid tid' cs :
  tid <> tid' -> calls_of tid (map (pair tid') cs) = [].
Proof.
  intros Hne. unfold calls_of. induction cs as [|c cs IH]; cbn; [reflexivity|].
  destruct (Nat.eqb_spec tid' tid); [congruence|exact IH].
Qed.

Lemma calls_of_fresh tid (l : list (nat * Call)) k :
  (forall q, q ∈ l -> (q.1 < k)%nat) -> (k <= tid)%nat -> calls_of tid l = [].
Proof.
  intros Hl Hk. unfold calls_of.
  induction l as [|q l IH]; cbn; [reflexivity|].
  destruct (Nat.eqb_spec q.1 tid) as [E|_].
  - specialize (Hl q (list_elem_of_here _ _)). lia.
  - apply IH. intros q' Hq'. apply Hl. now apply list_elem_of_further.
Qed.

Lemma shape_goroutine t cs : method_of t = None -> shape t cs.
Proof. destruct t as [|[]|[]| | | | | |[]|]; cbn; auto; discriminate. Qed.

Lemma piece_shape old p (s : State A) cs :
  piece_of old p s ->
  match old with Some t => shape t cs | None => cs = [] end ->
  shape (next p) (cs ++ did p) /\
  (forall u, u ∈ forked p -> method_of u = None).
Proof.
  intros Hp Hcs. unfold start_calls, stop_calls in *.
  piece_cases Hp; cbn in *; unfold start_calls, stop_calls in *;
    rewrite ?app_nil_r; subst;
    (split; [|intros u; rewrite ?elem_of_cons, elem_of_nil;
              intros; destruct_or?; subst; try reflexivity; contradiction]);
    cbn; eauto.
  all: try match goal with f : Frame |- _ => destruct f; cbn; eauto end.
Qed.

(** C9.  In every state the goroutines can reach, the calls that one
    execution of [Start] or [StartAsync] has made on the device port hold at
    most one [Open], and it comes right after an [IsOpen] that returned
    false; the calls that one execution of [Stop] has made hold at most one
    [Close], and it comes right after an [IsOpen] that returned true. *)
Theorem Open_and_Close_are_guarded :
  forall (address : string) (device : A) (n : Net) (cs : list Choice)
         (w : World A) (tid : nat) (t : Task),
    run cs (boot address device n) = Some w ->
    pool w !! tid = Some t ->
    let mine := calls_of tid (calls w) in
    match method_of t with
    | Some MStart | Some MStartAsync =>
        (count is_Open mine <= 1)%nat /\
        guarded false is_Open None mine = true
    | Some MStop =>
        (count is_Close mine <= 1)%nat /\
        guarded true is_Close None mine = true
    | None => True
    end.
Proof.
  intros address device n cs w tid t Hrun Ht mine.
  set (I := fun w0 : World A =>
    (forall q, q ∈ calls w0 -> (q.1 < length (pool w0))%nat) /\
    forall j u, pool w0 !! j = Some u -> shape u (calls_of j (calls w0))).
  assert (HI : I w).
  { revert Hrun. apply (run_invariant I).
    - intros c w0 w1 [Hb Hsh] Hs.
      destruct (step_cases _ _ _ Hs) as (old & k & p & Hp & Hpl & _ & Ec).
      destruct (placed_length _ _ _ _ _ _ Hpl) as [Hlen Hk].
      assert (Hmine : match old with
                      | Some t0 => shape t0 (calls_of k (calls w0))
                      | None => calls_of k (calls w0) = []
                      end).
      { destruct old as [t0|]; cbn in Hpl; destruct Hpl as [Hpl _].
        - now apply Hsh.
        - apply (calls_of_fresh _ _ (length (pool w0))); [assumption|lia]. }
      destruct (piece_shape _ _ _ _ Hp Hmine) as [Hnext Hfk].
      split.
      + intros q. rewrite Ec, elem_of_app, list_elem_of_fmap.
        intros [Hq|(c0 & -> & _)]; [specialize (Hb q Hq); lia | exact Hk].
      + intros j u Hj. rewrite Ec, calls_of_app.
        destruct (placed_lookup _ _ _ _ _ _ _ _ Hpl Hj)
          as [[-> ->]|[[Hne Hx]|(Hne & _ & Hx)]].
        * now rewrite calls_of_mine.
        * rewrite calls_of_others, app_nil_r by assumption. now apply Hsh.
        * apply shape_goroutine. now apply Hfk.
    - split; [intros q; cbn; now rewrite elem_of_nil|].
      intros j u. cbn. now rewrite lookup_nil. }
  destruct HI as [_ Hsh]. specialize (Hsh _ _ Ht). fold mine in Hsh.
  unfold start_calls, stop_calls in *.
  destruct t as [|[]|[]| | | | | |[]|]; cbn in *;
    unfold start_calls, stop_calls in *;
    trivial; destruct_or?;
    repeat match goal with E : exists _, _ |- _ => destruct E as [? E] end;
    rewrite Hsh; cbn; auto.
Qed.

End Machine.

(** [TestServerStartStop], on the mock: after [StartAsync] and [Stop], with
    the accept loop gone, [Stop] is the only goroutine left and it waits. *)
Lemma Stop_after_StartAsync_never_returns_witness :
  run [Invoke MStartAsync; Resume 0 NoInput; Invoke MStop]
      (boot "localhost:9101" scenario.mock scenario.idle_net)
    = Some scenario.stop_called /\
  run [Resume 2 NoInput; Resume 1 NoInput;
       Resume 1 (AcceptError "use of closed network connection")]
      scenario.stop_called
    = Some scenario.stop_waiting /\
  0 < wg (srv (state scenario.stop_waiting)) /\
  step (Resume 2 NoInput) scenario.stop_waiting = None.
Proof.
  split; [reflexivity|]. split; [reflexivity|]. split; [|reflexivity].
  exact (proj1 (Stop_after_StartAsync_never_returns
            "localhost:9101" scenario.mock scenario.idle_net
            [Invoke MStartAsync; Resume 0 NoInput; Invoke MStop]
            scenario.stop_called 0%nat 2%nat (Stop_listener (Some 3%nat))
            eq_refl eq_refl eq_refl eq_refl
            [Resume 2 NoInput; Resume 1 NoInput;
             Resume 1 (AcceptError "use of closed network connection")]
            scenario.stop_waiting eq_refl)).
Defined.

(** C4 does not hold as stated: after a [Start] whose device did not open,
    and after a [Stop], running is false and the [listener] field still
    holds the handle, now closed. *)
Lemma listener_kept_when_not_running :
  @run _ (USBAdapter_Adapter "linux") [Invoke MStart]
       (boot "localhost:9101" scenario.usb_without_device scenario.idle_net)
    = Some scenario.open_failed /\
  running (srv (state scenario.open_failed)) = false /\
  listener (srv (state scenario.open_failed)) = Some 3%nat /\
  run scenario.start_then_stop
      (boot "localhost:9101" scenario.mock scenario.idle_net)
    = Some scenario.stopped /\
  running (srv (state scenario.stopped)) = false /\
  listener (srv (state scenario.stopped)) = Some 3%nat /\
  ~ (running (srv (state scenario.stopped)) = true <->
     listener (srv (state scenario.stopped)) <> None).
Proof.
  repeat (split; [reflexivity|]).
  cbn. intros [_ Hconv]. discriminate Hconv. discriminate.
Qed.

Lemma running_implies_listening_witness :
  run [Invoke MStartAsync; Resume 0 NoInput]
      (boot "localhost:9101" scenario.mock scenario.idle_net)
    = Some scenario.accepting /\
  running (srv (state scenario.accepting)) = true /\
  exists l : Listener,
    listener (srv (state scenario.accepting)) = Some l /\
    listening l (net (state scenario.accepting)) = true.
Proof.
  split; [reflexivity|]. split; [reflexivity|].
  exact (running_implies_listening
           "localhost:9101" scenario.mock scenario.idle_net
           [Invoke MStartAsync; Resume 0 NoInput] scenario.accepting
           eq_refl eq_refl).
Defined.

Lemma Open_and_Close_are_guarded_witness :
  run scenario.start_then_stop
      (boot "localhost:9101" scenario.mock scenario.idle_net)
    = Some scenario.stopped /\
  calls_of 1 (calls scenario.stopped) = [CallIsOpen true; CallClose None] /\
  ((count is_Close (calls_of 1 (calls scenario.stopped)) <= 1)%nat /\
   guarded true is_Close None (calls_of 1 (calls scenario.stopped)) = true) /\
  ((count is_Open (calls_of 0 (calls scenario.stopped)) <= 1)%nat /\
   guarded false is_Open None (calls_of 0 (calls scenario.stopped)) = true).
Proof.
  split; [reflexivity|]. split; [reflexivity|]. split.
  - exact (Open_and_Close_are_guarded
             "localhost:9101" scenario.mock scenario.idle_net
             scenario.start_then_stop scenario.stopped 1%nat
             (Returned MStop None) eq_refl eq_refl).
  - exact (Open_and_Close_are_guarded
             "localhost:9101" scenario.mock scenario.idle_net
             scenario.start_then_stop scenario.stopped 0%nat
             (Returned MStart None) eq_refl eq_refl).
Defined.

(** ** Writes of several connections *)

Import serialize.

Lemma USBAdapter_transfer_alone tid rest n err (d : LockedUSB) fuel :
  (length rest + 2 <= fuel)%nat ->
  USBAdapter_Write_alone fuel tid (U_Transfer rest n err) d =
    Some ({| usb := usb d; mu := None |},
          map (WByte tid) rest ++ [WEnd tid n err], (n, err)).
Proof.
  revert fuel. induction rest as [|b rest IH]; intros fuel Hfuel.
  - destruct fuel as [|[|fuel]]; cbn in *; [lia|lia|reflexivity].
  - destruct fuel as [|fuel]; cbn in *; [lia|].
    now rewrite IH by lia.
Qed.

Lemma USBAdapter_unlock_alone tid n err (d : LockedUSB) fuel :
  (1 <= fuel)%nat ->
  USBAdapter_Write_alone fuel tid (U_Unlock n err) d =
    Some ({| usb := usb d; mu := None |}, [WEnd tid n err], (n, err)).
Proof. destruct fuel; [lia|reflexivity]. Qed.

(** The pieces of [USBAdapter.Write], run by one goroutine on a free mutex,
    add up to the method: the same values are returned, the adapter is as
    before with its mutex free again, and of the data a prefix went out. *)
Lemma USBAdapter_Write_pieces_agree tid data (a : USBAdapter) :
  exists sent,
    sent `prefix_of` data /\
    USBAdapter_Write_alone (length data + 3) tid (U_Lock data)
                           {| usb := a; mu := None |} =
      Some ({| usb := after (USBAdapter_Write data a); mu := None |},
            WBegin tid data :: map (WByte tid) sent
              ++ [WEnd tid (result (USBAdapter_Write data a)).1
                           (result (USBAdapter_Write data a)).2],
            result (USBAdapter_Write data a)).
Proof.
  replace (length data + 3)%nat with (S (length data + 2)) by lia.
  unfold USBAdapter_Write.
  cbn [USBAdapter_Write_alone USBAdapter_Write_piece mu usb].
  destruct (negb (isOpen a));
    [exists []; split; [apply prefix_nil|];
     now rewrite USBAdapter_unlock_alone by lia|].
  destruct (outEndpoint a) as [ep|];
    [|exists []; split; [apply prefix_nil|];
      now rewrite USBAdapter_unlock_alone by lia].
  assert (Hlen : forall n : Z,
            (length (firstn (Z.to_nat n) data) + 2 <= length data + 2)%nat).
  { intros n. rewrite length_firstn. lia. }
  destruct (gousb.out_Write ep data) as [n [err|]];
    exists (firstn (Z.to_nat n) data);
    (split; [apply prefix_take|]);
    now rewrite USBAdapter_transfer_alone by apply Hlen.
Qed.

Lemma handleConnection_turn_Write fuel tid p rest (d d2 : LockedUSB) evs n err :
  USBAdapter_Write_alone fuel tid p d = Some (d2, evs, (n, err)) ->
  handleConnection_turn fuel tid (F_Write p rest) d =
    Some (d2, evs, match err with Some _ => F_Return | None => F_Read rest end).
Proof.
  revert p d evs. induction fuel as [|fuel IH]; intros p d evs; [discriminate|].
  cbn [USBAdapter_Write_alone handleConnection_turn handleConnection_piece piece
       USBAdapter_WriteMethod].
  destruct (USBAdapter_Write_piece tid p d) as [[[d1 evs1] [p1|[n1 err1]]]|];
    [| |discriminate].
  - destruct (USBAdapter_Write_alone fuel tid p1 d1) as [[[d3 evs3] r3]|] eqn:E;
      [|discriminate].
    intros [= <- <- ->]. now rewrite (IH _ _ _ E).
  - intros [= <- <- <- <-]. now destruct err1.
Qed.

(** The lock-by-lock [handleConnection] over the USB adapter, left alone for
    one turn of its loop, does what [forward] says: the same write is made
    with the same result, the loop goes on or the function returns
    accordingly, and the mutex is free again. *)
Lemma handleConnection_turn_agrees GOOS tid data rest (a : USBAdapter) :
  0 < len data ->
  exists evs,
    begun evs = [(tid, data)] /\
    handleConnection_turn (length data + 4) tid (F_Read ((data, None) :: rest))
                          {| usb := a; mu := None |} =
      let '(a1, _, again) :=
        @forward _ (USBAdapter_Adapter GOOS) data None a in
      Some ({| usb := a1; mu := None |}, evs,
            if again then F_Read rest else F_Return).
Proof.
  intros Hn. apply Z.ltb_lt in Hn.
  replace (length data + 4)%nat with (S (length data + 3)) by lia.
  cbn [handleConnection_turn handleConnection_piece call USBAdapter_WriteMethod].
  unfold forward. rewrite Hn. cbn [Write USBAdapter_Adapter usb_pack].
  destruct (USBAdapter_Write_pieces_agree tid data a) as (sent & _ & Hw).
  destruct (result (USBAdapter_Write data a)) as [n err] eqn:Er.
  rewrite (handleConnection_turn_Write _ _ _ rest _ _ _ _ _ Hw).
  eexists. split; [|destruct err; reflexivity].
  cbn. unfold begun. rewrite flat_map_app. cbn.
  replace (flat_map _ (map (WByte tid) sent)) with (@nil (nat * bytes));
    [reflexivity|].
  clear. induction sent as [|b sent IH]; cbn; [reflexivity|exact IH].
Qed.


Lemma sched_cases {D P} `{WriteMethod D P} tid (s s' : Sys D P) :
  sched tid s = Some s' ->
  exists t d1 evs t1,
    tasks s !! tid = Some t /\
    handleConnection_piece tid t (device_port s) = Some (d1, evs, t1) /\
    s' = {| device_port := d1; tasks := <[tid := t1]> (tasks s);
            log := log s ++ evs |}.
Proof.
  unfold sched. destruct (tasks s !! tid) as [t|]; [|discriminate].
  destruct (handleConnection_piece tid t (device_port s))
    as [[[d1 evs] t1]|] eqn:E; [|discriminate].
  intros [= <-]. eauto 10.
Qed.

Lemma exec_invariant {D P} `{WriteMethod D P} (I : Sys D P -> Prop) :
  (forall tid s s', I s -> sched tid s = Some s' -> I s') ->
  forall tids s s', I s -> exec tids s = Some s' -> I s'.
Proof.
  intros Hstep tids. induction tids as [|tid tids IH]; intros s s' Hs; cbn.
  - now intros [= <-].
  - destruct (sched tid s) as [s1|] eqn:E; [|discriminate].
    apply IH. now apply (Hstep tid s).
Qed.

Lemma begun_app l l' : begun (l ++ l') = begun l ++ begun l'.
Proof. unfold begun. apply flat_map_app. Qed.


Lemma insert_lookup_cases {T} (ts : list T) tid x j u :
  <[tid := x]> ts !! j = Some u ->
  (j = tid /\ u = x) \/ (j <> tid /\ ts !! j = Some u).
Proof.
  destruct (decide (j = tid)) as [->|Hne].
  - intros Hj. left. split; [reflexivity|].
    apply lookup_lt_Some in Hj as Hlt. rewrite length_insert in Hlt.
    rewrite list_lookup_insert_eq in Hj by assumption. congruence.
  - rewrite list_lookup_insert_ne by congruence. auto.
Qed.











(* ================================================================== *)
(** * Further properties of the USB adapter *)

Import effect discovery.

Lemma find_endpoints_frame i eps a :
  isOpen (find_endpoints i eps a) = isOpen a /\
  device (find_endpoints i eps a) = device a /\
  ctx (find_endpoints i eps a) = ctx a /\
  iface (find_endpoints i eps a) = iface a /\
  eventListeners (find_endpoints i eps a) = eventListeners a.
Proof.
  revert a. induction eps as [|ep eps IH]; intros a; cbn [find_endpoints];
    [auto|].
  cbv zeta.
  match goal with
  | |- context [find_endpoints i eps ?x] =>
      destruct (IH x) as (-> & -> & -> & -> & ->)
  end.
  destruct (gousb.ep_Direction ep), (outEndpoint a) eqn:Eo; cbn;
    repeat case_match; cbn; auto.
Qed.

Lemma find_endpoints_keeps_out i eps a ep :
  outEndpoint a = Some ep -> outEndpoint (find_endpoints i eps a) = Some ep.
Proof.
  revert a. induction eps as [|e eps IH]; intros a Ha; cbn [find_endpoints];
    [assumption|].
  apply IH.
  destruct (gousb.ep_Direction e); rewrite ?Ha; cbn; [reflexivity|].
  repeat case_match; cbn; assumption.
Qed.

Lemma Go_no_ConfigClose ev (hs : list Handler) :
  List.filter is_ConfigClose (map (fun h => Go h ev) hs) = [].
Proof. induction hs as [|h hs IH]; [reflexivity|exact IH]. Qed.

Lemma Go_no_EndpointWrite ev (hs : list Handler) :
  List.filter is_EndpointWrite (map (fun h => Go h ev) hs) = [].
Proof. induction hs as [|h hs IH]; [reflexivity|exact IH]. Qed.

(** X1.  [Open] returns nil only on an adapter that was not open and holds
    a device, and then leaves it open with an interface and an output
    endpoint; when it returns an error the open flag is as before.  The
    device, the context and the listeners are never changed. *)
Theorem USBAdapter_Open_outcome :
  forall (GOOS : string) (a : USBAdapter),
    let o := USBAdapter_Open GOOS a in
    device (after o) = device a /\
    ctx (after o) = ctx a /\
    eventListeners (after o) = eventListeners a /\
    match result o with
    | None =>
        isOpen a = false /\ isOpen (after o) = true /\
        (exists d, device a = Some d) /\
        (exists i, iface (after o) = Some i) /\
        (exists ep, outEndpoint (after o) = Some ep)
    | Some _ => isOpen (after o) = isOpen a
    end.
Proof.
  intros GOOS a. unfold USBAdapter_Open.
  destruct (isOpen a) eqn:Eopen; [cbn; auto|].
  destruct (device a) as [d|] eqn:Ed; [|cbn; auto].
  destruct (gousb.dev_ActiveConfigNum d) as [cfgNum|err]; [|cbn; auto].
  destruct (gousb.dev_Config d cfgNum) as [cfg|err]; [|cbn; auto].
  destruct (iface_scan (gousb.Desc_Interfaces cfg) (-1) <? 0); [cbn; auto|].
  destruct (gousb.cfg_Interface cfg _ 0) as [i|err]; [|cbn; auto].
  destruct (find_endpoints_frame i (gousb.Endpoints (gousb.Setting i))
              (set_iface (Some i) a)) as (Ho & Hd & Hc & Hi & Hl).
  cbn in Ho, Hd, Hc, Hi, Hl.
  destruct (outEndpoint (find_endpoints _ _ _)) as [ep|] eqn:Eep; cbn.
  - rewrite Hd, Hc, Hl, Hi, Eep. repeat split; eauto.
  - rewrite Hd, Hc, Hl, Ho. repeat split; auto.
Qed.

(** X2.  Whenever [Open] obtains the configuration of the device it closes
    it, exactly once and as the last thing it does, whether it then succeeds
    or fails; when it does not get that far it closes none. *)
Theorem USBAdapter_Open_closes_config :
  forall (GOOS : string) (a : USBAdapter),
    let o := USBAdapter_Open GOOS a in
    match config_of a with
    | Some _ =>
        List.filter is_ConfigClose (effects o) = [ConfigClose] /\
        last (effects o) = Some ConfigClose
    | None => List.filter is_ConfigClose (effects o) = []
    end.
Proof.
  intros GOOS a. unfold USBAdapter_Open, config_of.
  destruct (isOpen a); [reflexivity|].
  destruct (device a) as [d|]; [|reflexivity].
  assert (H0 : List.filter is_ConfigClose
                 (if decide (GOOS = "linux") then [SetAutoDetach] else []) = [])
    by (destruct (decide (GOOS = "linux")); reflexivity).
  destruct (gousb.dev_ActiveConfigNum d) as [cfgNum|err]; [|exact H0].
  destruct (gousb.dev_Config d cfgNum) as [cfg|err]; [|exact H0].
  destruct (iface_scan (gousb.Desc_Interfaces cfg) (-1) <? 0);
    [cbn; rewrite List.filter_app, H0, last_snoc; auto|].
  destruct (gousb.cfg_Interface cfg _ 0) as [i|err];
    [|cbn; rewrite List.filter_app, H0, last_snoc; auto].
  destruct (outEndpoint (find_endpoints _ _ _)) as [ep|]; cbn;
    [|rewrite List.filter_app, H0, last_snoc; auto].
  rewrite app_assoc, last_snoc, !List.filter_app, H0, Go_no_ConfigClose.
  auto.
Qed.

Lemma USBAdapter_Close_frame a :
  device (after (USBAdapter_Close a)) = device a /\
  ctx (after (USBAdapter_Close a)) = ctx a /\
  outEndpoint (after (USBAdapter_Close a)) = outEndpoint a /\
  inEndpoint (after (USBAdapter_Close a)) = inEndpoint a /\
  eventListeners (after (USBAdapter_Close a)) = eventListeners a /\
  isOpen (after (USBAdapter_Close a)) = false /\
  (isOpen a = true -> iface (after (USBAdapter_Close a)) = None).
Proof.
  unfold USBAdapter_Close.
  destruct (isOpen a) eqn:Eopen; cbn [negb];
    [|cbn; repeat split; auto; discriminate].
  destruct (iface a) eqn:Ei; cbn;
    destruct (device a) as [d|] eqn:Ed; cbn;
    try destruct (gousb.dev_Close d); cbn;
    destruct (ctx a) as [c|] eqn:Ec; cbn;
    try destruct (gousb.ctx_Close c); cbn; repeat split; intros;
    rewrite ?Ei; auto.
Qed.

Lemma USBAdapter_Open_keeps_out GOOS a ep :
  outEndpoint a = Some ep ->
  outEndpoint (after (USBAdapter_Open GOOS a)) = Some ep.
Proof.
  intros Ha. unfold USBAdapter_Open.
  destruct (isOpen a); [assumption|].
  destruct (device a) as [d|]; [|assumption].
  destruct (gousb.dev_ActiveConfigNum d) as [cfgNum|err]; [|assumption].
  destruct (gousb.dev_Config d cfgNum) as [cfg|err]; [|assumption].
  destruct (iface_scan (gousb.Desc_Interfaces cfg) (-1) <? 0); [assumption|].
  destruct (gousb.cfg_Interface cfg _ 0) as [i|err]; [|assumption].
  pose proof (find_endpoints_keeps_out i (gousb.Endpoints (gousb.Setting i))
                (set_iface (Some i) a) ep Ha) as Hk.
  rewrite Hk. cbn. exact Hk.
Qed.

(** X3.  An output endpoint the adapter holds is never replaced: [Close]
    leaves it in place and a later [Open] keeps it instead of taking the
    endpoint of the interface it has just claimed. *)
Theorem USBAdapter_reopen_keeps_endpoint :
  forall (GOOS : string) (a : USBAdapter) (ep : gousb.OutEndpoint),
    outEndpoint a = Some ep ->
    outEndpoint (after (USBAdapter_Close a)) = Some ep /\
    outEndpoint (after (USBAdapter_Open GOOS (after (USBAdapter_Close a))))
      = Some ep.
Proof.
  intros GOOS a ep Ha.
  destruct (USBAdapter_Close_frame a) as (_ & _ & Ho & _).
  rewrite Ha in Ho. split; [assumption|].
  now apply USBAdapter_Open_keeps_out.
Qed.

Lemma alt_scan_spec number alts found :
  alt_scan number alts found =
  if existsb (fun alt => gousb.Class alt =? IfaceClassPrinter) alts
  then number else found.
Proof.
  induction alts as [|alt alts IH]; cbn; [reflexivity|].
  destruct (gousb.Class alt =? IfaceClassPrinter); [reflexivity|exact IH].
Qed.

(** X4.  On interfaces numbered from zero up, the search of [Open] yields
    the number of the first interface that has an alternate setting of
    class printer, and -1 when there is none. *)
Theorem iface_scan_first_printer :
  forall ifaces : list gousb.InterfaceDesc,
    Forall (fun i => 0 <= gousb.Number i) ifaces ->
    iface_scan ifaces (-1) =
      match List.find printer_alt ifaces with
      | Some i => gousb.Number i
      | None => -1
      end.
Proof.
  intros ifaces Hnum. induction Hnum as [|i rest Hi _ IH]; [reflexivity|].
  cbn [iface_scan List.find]. rewrite alt_scan_spec.
  fold (printer_alt i). destruct (printer_alt i).
  - destruct (Z.leb_spec 0 (gousb.Number i)); [reflexivity|lia].
  - cbn. exact IH.
Qed.

Lemma iface_scan_found ifaces found :
  found < 0 -> 0 <= iface_scan ifaces found ->
  existsb printer_alt ifaces = true.
Proof.
  revert found. induction ifaces as [|i rest IH]; intros found Hneg;
    cbn [iface_scan existsb]; [lia|].
  rewrite alt_scan_spec. fold (printer_alt i).
  destruct (printer_alt i); [reflexivity|].
  destruct (Z.leb_spec 0 found); [lia|]. cbn. now apply IH.
Qed.

(** X5.  [Open] succeeds only on a device that [IsPrinter] accepts. *)
Theorem USBAdapter_Open_only_printers :
  forall (GOOS : string) (a : USBAdapter),
    result (USBAdapter_Open GOOS a) = None ->
    (IsPrinter (device a)).1 = true.
Proof.
  intros GOOS a. unfold USBAdapter_Open, IsPrinter.
  destruct (isOpen a); [discriminate|].
  destruct (device a) as [d|]; [|discriminate].
  destruct (gousb.dev_ActiveConfigNum d) as [cfgNum|err]; [|discriminate].
  destruct (gousb.dev_Config d cfgNum) as [cfg|err]; [|discriminate].
  destruct (Z.ltb_spec (iface_scan (gousb.Desc_Interfaces cfg) (-1)) 0);
    [discriminate|].
  intros _. cbn. apply (iface_scan_found _ (-1)); lia.
Qed.

Lemma USBAdapter_reopen_keeps_endpoint_witness :
  outEndpoint bench.opened = Some scenario.good_endpoint /\
  outEndpoint (after (USBAdapter_Open "linux"
                        (after (USBAdapter_Close bench.opened))))
    = Some scenario.good_endpoint.
Proof.
  split; [reflexivity|].
  exact (proj2 (USBAdapter_reopen_keeps_endpoint
                  "linux" bench.opened scenario.good_endpoint eq_refl)).
Defined.

Lemma iface_scan_first_printer_witness :
  iface_scan (gousb.Desc_Interfaces bench.printer_config) (-1) = 1.
Proof.
  apply (iface_scan_first_printer (gousb.Desc_Interfaces bench.printer_config)).
  repeat constructor; cbn; lia.
Defined.

Lemma USBAdapter_Open_only_printers_witness :
  result (USBAdapter_Open "linux" bench.found) = None /\
  (IsPrinter (device bench.found)).1 = true.
Proof.
  split; [reflexivity|].
  exact (USBAdapter_Open_only_printers "linux" bench.found eq_refl).
Defined.

(** X6.  [Write] never changes the adapter.  It returns a nil error only
    when the adapter is open and has an output endpoint, after exactly one
    transfer of exactly [data], and then reports the count of that
    transfer; on an adapter that is not open or has no output endpoint it
    returns 0 with an error and touches nothing. *)
Theorem USBAdapter_Write_frame :
  forall (data : bytes) (a : USBAdapter),
    let o := USBAdapter_Write data a in
    after o = a /\
    ((result o).2 = None ->
       isOpen a = true /\
       exists ep, outEndpoint a = Some ep /\
                  gousb.out_Write ep data = ((result o).1, None) /\
                  List.filter is_EndpointWrite (effects o)
                    = [EndpointWrite data]) /\
    (isOpen a = false \/ outEndpoint a = None ->
       (result o).1 = 0 /\ (result o).2 <> None /\ effects o = []).
Proof.
  intros data a. unfold USBAdapter_Write.
  destruct (isOpen a) eqn:Eopen; cbn [negb].
  - destruct (outEndpoint a) as [ep|] eqn:Eep.
    + destruct (gousb.out_Write ep data) as [n [err|]] eqn:Ew; cbn.
      * split; [reflexivity|]. split; [discriminate|].
        intros [?|?]; discriminate.
      * split; [reflexivity|]. split; [|intros [?|?]; discriminate].
        intros _. split; [reflexivity|]. exists ep.
        unfold emit. rewrite List.filter_app, Go_no_EndpointWrite. auto.
    + cbn. split; [reflexivity|]. split; [discriminate|]. auto.
  - cbn. split; [reflexivity|]. split; [discriminate|]. auto.
Qed.

(** X7.  [Close] on an open adapter leaves it not open and without
    interface, and keeps the device, the context, both endpoints and the
    listeners; it returns nil exactly when neither the device nor the
    context reported an error on closing. *)
Theorem USBAdapter_Close_open :
  forall a : USBAdapter,
    isOpen a = true ->
    let o := USBAdapter_Close a in
    isOpen (after o) = false /\
    iface (after o) = None /\
    device (after o) = device a /\
    ctx (after o) = ctx a /\
    outEndpoint (after o) = outEndpoint a /\
    inEndpoint (after o) = inEndpoint a /\
    eventListeners (after o) = eventListeners a /\
    (result o = None <->
       (forall d, device a = Some d -> gousb.dev_Close d = None) /\
       (forall c, ctx a = Some c -> gousb.ctx_Close c = None)).
Proof.
  intros a Hopen o.
  destruct (USBAdapter_Close_frame a) as (Hd & Hc & Ho & Hi & Hl & Hf & Hn).
  subst o. repeat (split; [auto; fail|]).
  unfold USBAdapter_Close. rewrite Hopen; cbn [negb].
  destruct (iface a); cbn;
    destruct (device a) as [d|]; cbn;
    try destruct (gousb.dev_Close d) eqn:Ed; cbn;
    destruct (ctx a) as [c|]; cbn;
    try destruct (gousb.ctx_Close c) eqn:Ec; cbn;
    (split; [try discriminate; intros _; split; intros ? [= <-]; assumption
            | intros [H1 H2]; try reflexivity;
              try (specialize (H1 _ eq_refl); congruence);
              try (specialize (H2 _ eq_refl); congruence)]).
Qed.

Lemma USBAdapter_Close_open_witness :
  isOpen bench.opened = true /\
  isOpen (after (USBAdapter_Close bench.opened)) = false /\
  result (USBAdapter_Close bench.opened) = None.
Proof.
  split; [reflexivity|].
  pose proof (USBAdapter_Close_open bench.opened eq_refl) as Hw.
  cbv zeta in Hw. destruct Hw as (Hf & _ & _ & _ & _ & _ & _ & Hr).
  split; [exact Hf|]. apply Hr. split.
  - intros d [= <-]. reflexivity.
  - intros c [= <-]. reflexivity.
Defined.

(** X8.  Once [Close] has been called, whatever it returned, a second
    [Close] returns nil and does nothing, and [Write] and [Read] return 0
    with "device not open" without touching an endpoint. *)
Theorem USBAdapter_closed_refuses :
  forall (a : USBAdapter) (data buf : bytes),
    let a' := after (USBAdapter_Close a) in
    USBAdapter_Close a' = mkOut a' None [] /\
    USBAdapter_Write data a' = mkOut a' (0, Some "device not open") [] /\
    USBAdapter_Read buf a' = mkOut a' (buf, 0, Some "device not open") [].
Proof.
  intros a data buf a'.
  assert (Hf : isOpen a' = false) by apply USBAdapter_Close_frame.
  unfold USBAdapter_Close, USBAdapter_Write, USBAdapter_Read.
  now rewrite Hf.
Qed.


(* ================================================================== *)
(** * Further properties: finding the device *)

Lemma closes_app j l l' : closes j (l ++ l') = (closes j l + closes j l')%nat.
Proof. unfold closes. now rewrite List.filter_app, length_app. Qed.

Lemma closes_Device j i l :
  closes j (Device_Close i :: l) =
  ((if decide (i = j) then 1 else 0) + closes j l)%nat.
Proof.
  unfold closes; cbn [List.filter].
  destruct (decide (i = j)) as [->|Hne].
  - now rewrite bool_decide_eq_true_2.
  - rewrite bool_decide_eq_false_2; [reflexivity|]. intros [= ->]. auto.
Qed.

Lemma closes_Config j i (xs : list Effect) :
  closes j (map (fun _ => Config_Close i) xs) = 0%nat.
Proof. induction xs as [|x xs IH]; [reflexivity|exact IH]. Qed.

Lemma closes_places j (l : list nat) :
  closes j (map Device_Close l) = length (List.filter (fun x => Nat.eqb x j) l).
Proof.
  induction l as [|x l IH]; [reflexivity|].
  cbn [map List.filter]. rewrite closes_Device, IH.
  destruct (decide (x = j)) as [->|Hne].
  - now rewrite Nat.eqb_refl.
  - destruct (Nat.eqb_spec x j); [contradiction|reflexivity].
Qed.

Lemma count_seq j i m :
  length (List.filter (fun x => Nat.eqb x j) (seq i m)) =
  if decide (i <= j < i + m)%nat then 1%nat else 0%nat.
Proof.
  revert i. induction m as [|m IH]; intros i; cbn [seq List.filter].
  - destruct (decide (i <= j < i + 0)%nat); [lia|reflexivity].
  - destruct (Nat.eqb_spec i j) as [->|Hne]; cbn [length]; rewrite IH.
    + destruct (decide (S j <= j < S j + m)%nat); [lia|].
      destruct (decide (j <= j < j + S m)%nat); [reflexivity|lia].
    + destruct (decide (S i <= j < S i + m)%nat),
               (decide (i <= j < i + S m)%nat); try reflexivity; lia.
Qed.

Lemma count_others j n k :
  length (List.filter (fun x => Nat.eqb x j) (others n k)) =
  if decide (j < n /\ j <> k)%nat then 1%nat else 0%nat.
Proof.
  unfold others.
  assert (Hgen : forall l,
    length (List.filter (fun x => Nat.eqb x j)
              (List.filter (fun x => negb (Nat.eqb x k)) l)) =
    if decide (j = k) then 0%nat
    else length (List.filter (fun x => Nat.eqb x j) l)).
  { induction l as [|x l IH]; cbn [List.filter];
      [now destruct (decide (j = k))|].
    destruct (Nat.eqb_spec x k) as [->|Hxk]; cbn [negb List.filter].
    - rewrite IH. destruct (decide (j = k)) as [->|Hjk]; [reflexivity|].
      destruct (Nat.eqb_spec k j); [congruence|reflexivity].
    - destruct (Nat.eqb_spec x j) as [->|Hxj]; cbn [length]; rewrite IH;
        destruct (decide (j = k)); try reflexivity; congruence. }
  rewrite Hgen, count_seq.
  destruct (decide (j = k)) as [->|Hjk].
  - destruct (decide (k < n /\ k <> k)%nat) as [[_ Hk]|_];
      [contradiction|reflexivity].
  - destruct (decide (0 <= j < 0 + n)%nat),
             (decide (j < n /\ j <> k)%nat); try reflexivity; lia.
Qed.

Lemma scan_printers_spec devices i :
  (scan_printers i devices).1 = map handle (List.filter is_printer devices) /\
  (forall k, closes (i + k) (scan_printers i devices).2 =
             match devices !! k with
             | Some dev => if is_printer dev then 0%nat else 1%nat
             | None => 0%nat
             end) /\
  (forall j, (j < i)%nat -> closes j (scan_printers i devices).2 = 0%nat) /\
  Context_Close ∉ (scan_printers i devices).2.
Proof.
  revert i. induction devices as [|dev rest IH]; intros i.
  - cbn. repeat split; auto. apply not_elem_of_nil.
  - cbn [scan_printers List.filter].
    destruct (IH (S i)) as (Hp & Hk & Hlt & Hctx).
    destruct (IsPrinter (Some (handle dev))) as [printer closed] eqn:Ei.
    assert (Hip : is_printer dev = printer)
      by (unfold is_printer; now rewrite Ei).
    destruct (scan_printers (S i) rest) as [printers released] eqn:Es.
    cbn [fst snd] in *. rewrite Hip.
    assert (Hcfg : Context_Close ∉ map (fun _ : Effect => Config_Close i) closed).
    { intros Hin. apply list_elem_of_fmap in Hin as (x & [=] & _). }
    destruct printer; cbn [fst snd map].
    + split; [now rewrite Hp|]. split; [|split].
      * intros [|k]; rewrite closes_app, closes_Config; cbn [lookup list_lookup].
        -- rewrite Nat.add_0_r, Hip. cbn. apply Hlt. lia.
        -- replace (i + S k)%nat with (S i + k)%nat by lia. apply Hk.
      * intros j Hj. rewrite closes_app, closes_Config. apply Hlt. lia.
      * rewrite elem_of_app. tauto.
    + split; [assumption|]. split; [|split].
      * intros [|k]; rewrite closes_app, closes_Config, closes_Device;
          cbn [lookup list_lookup].
        -- rewrite Nat.add_0_r, decide_True, Hip by reflexivity.
           cbn. rewrite Hlt by lia. reflexivity.
        -- rewrite decide_False by lia.
           replace (i + S k)%nat with (S i + k)%nat by lia. apply Hk.
      * intros j Hj. rewrite closes_app, closes_Config, closes_Device.
        rewrite decide_False by lia. apply Hlt. lia.
      * rewrite elem_of_app, elem_of_cons. intros [?|[[=]|?]]; tauto.
Qed.

(** X10.  [FindPrinters] returns the devices that [IsPrinter] accepts, in
    the order of the scan; it closes every other device once, closes no
    device it returns and never closes the context.  When the scan reports
    an error it returns nothing and closes nothing, whatever was opened. *)
Theorem FindPrinters_spec :
  forall b : Bus,
    match OpenDevices b with
    | (devices, None) =>
        (FindPrinters b).1 = map handle (List.filter is_printer devices) /\
        (forall k, closes k (FindPrinters b).2 =
                   match devices !! k with
                   | Some dev => if is_printer dev then 0%nat else 1%nat
                   | None => 0%nat
                   end) /\
        Context_Close ∉ (FindPrinters b).2
    | (_, Some _) => FindPrinters b = ([], [])
    end.
Proof.
  intros b. unfold FindPrinters.
  destruct (OpenDevices b) as [devices [err|]]; [reflexivity|].
  destruct (scan_printers_spec devices 0) as (Hp & Hk & _ & Hctx).
  auto.
Qed.

Lemma FindPrinters_printers b d :
  d ∈ (FindPrinters b).1 -> (IsPrinter (Some d)).1 = true.
Proof.
  unfold FindPrinters.
  destruct (OpenDevices b) as [devices [err|]].
  - intros Hd. now apply elem_of_nil in Hd.
  - destruct (scan_printers_spec devices 0) as (-> & _). intros Hd.
    apply list_elem_of_fmap in Hd as (dev & -> & Hdev).
    apply list_elem_of_In, List.filter_In in Hdev as [_ Hdev]. exact Hdev.
Qed.

Lemma FindPrinters_keeps_context b : Context_Close ∉ (FindPrinters b).2.
Proof.
  unfold FindPrinters.
  destruct (OpenDevices b) as [devices [err|]]; [apply not_elem_of_nil|].
  now destruct (scan_printers_spec devices 0) as (_ & _ & _ & Hctx).
Qed.

(** X11.  [NewUSBAdapterAuto] fails, with "cannot find printer" and
    closing the context last, exactly when [FindPrinters] finds nothing.
    Otherwise it returns an adapter that is not open, holds the context and
    the first printer found, has no interface and no endpoint, and the
    context stays open; the other printers found stay open too. *)
Theorem NewUSBAdapterAuto_outcome :
  forall b : Bus,
    match NewUSBAdapterAuto b with
    | (inl a, released) =>
        head (FindPrinters b).1 = device a /\
        (IsPrinter (device a)).1 = true /\
        isOpen a = false /\
        ctx a = Some (context b) /\
        iface a = None /\ outEndpoint a = None /\ inEndpoint a = None /\
        released = (FindPrinters b).2 /\
        Context_Close ∉ released
    | (inr err, released) =>
        err = "cannot find printer" /\
        (FindPrinters b).1 = [] /\
        released = (FindPrinters b).2 ++ [Context_Close]
    end.
Proof.
  intros b. unfold NewUSBAdapterAuto.
  pose proof (FindPrinters_printers b) as Hp.
  pose proof (FindPrinters_keeps_context b) as Hs.
  destruct (FindPrinters b) as [[|first others] released] eqn:Ef; cbn in *;
    [auto|].
  repeat split; auto.
  apply Hp. apply list_elem_of_here.
Qed.

Lemma serial_scan_spec serial n devices i :
  match first_match serial i devices with
  | Some k =>
      (i <= k)%nat /\
      exists dev, devices !! (k - i)%nat = Some dev /\
                  SerialNumber dev = inl serial /\
                  serial_scan serial n i devices =
                    (Some (handle dev),
                     map Device_Close (seq i (k - i))
                       ++ map Device_Close (others n k))
  | None =>
      serial_scan serial n i devices =
        (None, map Device_Close (seq i (length devices)))
  end.
Proof.
  revert i. induction devices as [|dev rest IH]; intros i; [reflexivity|].
  cbn [first_match serial_scan].
  assert (Hnext :
    match first_match serial (S i) rest with
    | Some k =>
        (i <= k)%nat /\
        exists d, (dev :: rest) !! (k - i)%nat = Some d /\
                  SerialNumber d = inl serial /\
                  (let '(found, released) := serial_scan serial n (S i) rest in
                   (found, Device_Close i :: released)) =
                    (Some (handle d),
                     map Device_Close (seq i (k - i))
                       ++ map Device_Close (others n k))
    | None =>
        (let '(found, released) := serial_scan serial n (S i) rest in
         (found, Device_Close i :: released)) =
          (None, map Device_Close (seq i (length (dev :: rest))))
    end).
  { specialize (IH (S i)).
    destruct (first_match serial (S i) rest) as [k|].
    - destruct IH as (Hle & d & Hd & Hs & ->).
      split; [lia|]. exists d.
      replace (k - i)%nat with (S (k - S i)) by lia.
      cbn [lookup list_lookup seq map app]. auto.
    - rewrite IH. reflexivity. }
  destruct (SerialNumber dev) as [s|err] eqn:Es; [|exact Hnext].
  destruct (String.eqb_spec s serial) as [->|Hne]; [|exact Hnext].
  split; [lia|]. exists dev. rewrite Nat.sub_diag. auto.
Qed.

(** X12.  [GetDeviceBySerial] returns the first device of the scan whose
    serial number is the one asked for and never closes it.  It closes every
    device after it once and every device before it twice: once as the loop
    passed it, once more when the match is found.  When no device matches it
    fails and every device is closed once; when the scan reports an error it
    returns that error and closes nothing. *)
Theorem GetDeviceBySerial_spec :
  forall (b : Bus) (serial : string),
    match OpenDevices b with
    | (devices, None) =>
        match first_match serial 0 devices with
        | Some k =>
            exists dev,
              devices !! k = Some dev /\
              SerialNumber dev = inl serial /\
              (GetDeviceBySerial b serial).1 = inl (handle dev) /\
              forall j,
                closes j (GetDeviceBySerial b serial).2 =
                  if decide (j < k)%nat then 2%nat
                  else if decide (j = k) then 0%nat
                  else if decide (j < length devices)%nat then 1%nat
                  else 0%nat
        | None =>
            (GetDeviceBySerial b serial).1
              = inr "device with serial number not found" /\
            forall j,
              closes j (GetDeviceBySerial b serial).2 =
                if decide (j < length devices)%nat then 1%nat else 0%nat
        end
    | (_, Some err) => GetDeviceBySerial b serial = (inr err, [])
    end.
Proof.
  intros b serial. unfold GetDeviceBySerial.
  destruct (OpenDevices b) as [devices [err|]]; [reflexivity|].
  pose proof (serial_scan_spec serial (length devices) devices 0) as Hs.
  destruct (first_match serial 0 devices) as [k|].
  - destruct Hs as (_ & dev & Hdev & Hser & ->).
    rewrite Nat.sub_0_r in *. exists dev. repeat split; auto.
    intros j. cbn [snd]. apply lookup_lt_Some in Hdev.
    rewrite closes_app, !closes_places, count_seq, count_others.
    repeat case_decide; lia.
  - rewrite Hs. split; [reflexivity|].
    intros j. cbn [snd]. rewrite closes_places, count_seq.
    repeat case_decide; lia.
Qed.

(** X13.  [NewUSBAdapter] takes the device the search by vendor and
    product finds as it is, without asking [IsPrinter] and releasing
    nothing; when that search fails or finds no device it does exactly what
    [NewUSBAdapterAuto] does.  An adapter it returns is not open and holds
    a device and the context. *)
Theorem NewUSBAdapter_outcome :
  forall (vid pid : Z) (b : Bus),
    match OpenDeviceWithVIDPID b vid pid with
    | (Some d, None) =>
        NewUSBAdapter vid pid b = (inl (set_device (Some d) (blank b)), [])
    | _ => NewUSBAdapter vid pid b = NewUSBAdapterAuto b
    end /\
    forall a released,
      NewUSBAdapter vid pid b = (inl a, released) ->
      isOpen a = false /\ (exists d, device a = Some d) /\
      ctx a = Some (context b).
Proof.
  intros vid pid b. unfold NewUSBAdapter, NewUSBAdapterAuto.
  destruct (OpenDeviceWithVIDPID b vid pid) as [[d|] [err|]];
    (split; [reflexivity|]); intros a released;
    try (intros [= <- <-]; cbn; eauto);
    destruct (FindPrinters b) as [[|first rest] rel];
    intros [= <- <-]; cbn; eauto.
Qed.

(* ================================================================== *)
(** * Further properties of the server *)

Section MoreLifecycle.
Context {A : Type} `{Adapter A}.

(** X14.  On a stopped server whose address cannot be bound, because the
    platform refuses it or because a listener holds it, [Start] and
    [StartAsync] fail with "failed to start server"; the server, the network
    and the device are as before and the device is not called. *)
Theorem Start_bind_failed :
  forall (m : Method) (s : State A),
    m <> MStop ->
    running (srv s) = false ->
    bindable (net s) (address (srv s)) = false \/
    in_use (address (srv s)) (net s) = true ->
    exists err,
      invoke m s = {| st := s; did := []; forked := [];
                      next := Returned m (Some (BindFailed err)) |}.
Proof.
  intros m s Hm Hrun Hbind.
  assert (Hl : exists err, net_Listen (address (srv s)) (net s) = (net s, inr err)).
  { unfold net_Listen. destruct Hbind as [-> | Hu]; cbn; [eauto|].
    rewrite Hu. destruct (bindable (net s) (address (srv s))); cbn; eauto. }
  destruct Hl as [err Hl]. exists err.
  destruct m; [| |contradiction]; cbn [invoke];
    unfold Start, StartAsync, start_locked; now rewrite Hrun, Hl.
Qed.


End MoreLifecycle.

Lemma Start_bind_failed_witness :
  in_use "localhost:9101" (net bench.crowded) = true /\
  exists err,
    StartAsync bench.crowded
      = {| st := bench.crowded; did := []; forked := [];
           next := Returned MStartAsync (Some (BindFailed err)) |}.
Proof.
  split; [reflexivity|].
  exact (Start_bind_failed MStartAsync bench.crowded
           ltac:(discriminate) eq_refl (or_intror eq_refl)).
Defined.


(** Case analysis on the piece that ran, and what the hypotheses say of the
    state before it. *)
Ltac piece_split Hp :=
  match type of Hp with
  | piece_of ?old _ _ =>
      destruct old as [[]|]; cbn [piece_of] in Hp;
      [ destruct Hp as [? Hp]; cbn [resume] in Hp .. | destruct Hp as [[] ->] ];
      unfold invoke in *;
      unfold acceptConnections_call, acceptConnections_resume,
             handleConnection_resume, forward, Stop_resume, StartAsync_rest,
             Start, StartAsync, Stop, start_locked, accept_return, with_srv
        in *;
      repeat case_match; simplify_eq
  end.

Section MoreMachine.
Context {A : Type} `{Adapter A}.

Lemma reach_wg address (device : A) n cs w :
  run cs (boot address device n) = Some w ->
  wg (srv (state w)) = total (pool w).
Proof.
  apply (run_invariant (fun w => wg (srv (state w)) = total (pool w)));
    [|reflexivity].
  intros c w0 w1. apply wg_counts.
Qed.

(** X16.  In every state the goroutines can reach, the counter of the wait
    group is the number of [StartAsync] calls that returned nil plus the
    number of connection tasks that have not returned: each task is counted
    from its [Accept] to its return, once. *)
Theorem wait_group_counts :
  forall (address : string) (device : A) (n : Net) (cs : list Choice)
         (w : World A),
    run cs (boot address device n) = Some w ->
    wg (srv (state w)) = total (pool w) /\
    0 <= wg (srv (state w)).
Proof.
  intros address device n cs w Hrun.
  rewrite (reach_wg _ _ _ _ _ Hrun). split; [reflexivity|apply total_nonneg].
Qed.

(** X17.  The deferred [s.wg.Done()] of a connection task never finds the
    counter at zero: in every reachable state a task waiting in [conn.Read]
    can take whatever the read returns, up to the size of its buffer. *)
Theorem handleConnection_can_return :
  forall (address : string) (device : A) (n : Net) (cs : list Choice)
         (w : World A) (tid : nat) (data : bytes) (err : option error),
    run cs (boot address device n) = Some w ->
    pool w !! tid = Some handleConnection_Read ->
    len data <= buf_len ->
    exists w', step (Resume tid (ReadResult data err)) w = Some w'.
Proof.
  intros address device n cs w tid data err Hrun Ht Hlen.
  pose proof (reach_wg _ _ _ _ _ Hrun) as Hwg.
  pose proof (total_lookup _ _ _ Ht) as Hone. cbn in Hone.
  cbn [step]. rewrite Ht. cbn [resume]. unfold handleConnection_resume.
  apply Z.leb_le in Hlen. rewrite Hlen.
  destruct (forward data err (dev (state w))) as [[d1 cs1] [|]]; [eauto|].
  destruct (Z.leb_spec 0 (wg (srv (state w)) - 1)); [eauto|lia].
Qed.

Lemma total_zero ts :
  (forall j t, ts !! j = Some t -> weight t = 0) -> total ts = 0.
Proof.
  induction ts as [|t ts IH]; intros Hall; cbn [total]; [reflexivity|].
  rewrite (Hall 0%nat t eq_refl), IH; [reflexivity|].
  intros j u Hj. apply (Hall (S j)). exact Hj.
Qed.

(** X18.  [s.wg.Wait()] in [Stop] returns exactly when no connection task
    is running and no [StartAsync] has ever returned nil. *)
Theorem Wait_returns_when_drained :
  forall (address : string) (device : A) (n : Net) (cs : list Choice)
         (w : World A) (i : Input),
    run cs (boot address device n) = Some w ->
    (exists p, resume Stop_Wait i (state w) = Some p) <->
    (forall j, pool w !! j <> Some handleConnection_Read) /\
    (forall j, pool w !! j <> Some (Returned MStartAsync None)).
Proof.
  intros address device n cs w i Hrun.
  pose proof (reach_wg _ _ _ _ _ Hrun) as Hwg.
  cbn [resume Stop_resume]. split.
  - intros [p Hp].
    destruct (Z.eqb_spec (wg (srv (state w))) 0) as [Hz|]; [|discriminate].
    split; intros j Hj; apply total_lookup in Hj; cbn in Hj; lia.
  - intros [Hno1 Hno2].
    rewrite Hwg, total_zero; [cbn; eauto|].
    intros j t Hj. destruct t as [| | | | | | | |[] []|]; try reflexivity.
    + now destruct (Hno1 j).
    + now destruct (Hno2 j).
Qed.



End MoreMachine.

Lemma wait_group_counts_witness :
  wg (srv (state bench.serving)) = total (pool bench.serving) /\
  0 <= wg (srv (state bench.serving)).
Proof.
  apply (wait_group_counts "localhost:9101" scenario.mock scenario.idle_net
           [Invoke MStart; Resume 0 NoInput; Resume 0 Accepted]).
  reflexivity.
Defined.

Lemma handleConnection_can_return_witness :
  exists w',
    step (Resume 1 (ReadResult [] (Some scenario.io_EOF))) bench.serving
      = Some w'.
Proof.
  apply (handleConnection_can_return
           "localhost:9101" scenario.mock scenario.idle_net
           [Invoke MStart; Resume 0 NoInput; Resume 0 Accepted]).
  - reflexivity.
  - reflexivity.
  - vm_compute. discriminate.
Defined.

Lemma Wait_returns_when_drained_witness :
  (exists p, resume Stop_Wait NoInput (state bench.blocking) = Some p) <->
  (forall j, pool bench.blocking !! j <> Some handleConnection_Read) /\
  (forall j, pool bench.blocking !! j <> Some (Returned MStartAsync None)).
Proof.
  apply (Wait_returns_when_drained
           "localhost:9101" scenario.mock scenario.idle_net [Invoke MStart]).
  reflexivity.
Defined.


Section MoreConnections.
Context {A : Type} `{Adapter A}.

Lemma handleConnection_one data err (d : A) d1 cs :
  forward data err d = (d1, cs, false) ->
  handleConnection [(data, err)] d = (d1, cs, true).
Proof. intros E. cbn [handleConnection]. now rewrite E. Qed.

(** X20.  The goroutine and the loop agree.  A connection task that is
    given the results of its reads one by one, while no other goroutine
    runs, leaves the device, the log of calls and the wait group as the
    loop of [handleConnection] run over the same reads does: the counter
    goes down by one exactly if the loop returned. *)
Theorem handleConnection_task_agrees :
  forall (reads : list (bytes * option error)) (w : World A) (tid : nat),
    pool w !! tid = Some handleConnection_Read ->
    1 <= wg (srv (state w)) ->
    Forall (fun r => len r.1 <= buf_len) reads ->
    (forall k, (k < length reads)%nat ->
       (handleConnection (take k reads) (dev (state w))).2 = false) ->
    let out := handleConnection reads (dev (state w)) in
    run (map (fun r => Resume tid (ReadResult r.1 r.2)) reads) w =
      Some {| state :=
                {| srv := if out.2
                          then set_wg (wg (srv (state w)) - 1) (srv (state w))
                          else srv (state w);
                   dev := out.1.1;
                   net := net (state w) |};
              pool := <[tid := if out.2 then Exited
                               else handleConnection_Read]> (pool w);
              calls := calls w ++ map (pair tid) out.1.2 |}.
Proof.
  induction reads as [|[data err] rest IH]; intros w tid Ht Hwg Hlen Hlive.
  - cbn. rewrite list_insert_id, app_nil_r by exact Ht.
    now destruct w as [[] ? ?].
  - apply Forall_cons in Hlen as [Hlen0 Hlen].
    cbn [map run step fst snd]. rewrite Ht. cbn [resume].
    unfold handleConnection_resume.
    apply Z.leb_le in Hlen0. cbn [fst] in Hlen0. rewrite Hlen0.
    cbn [handleConnection].
    destruct (forward data err (dev (state w))) as [[d1 cs] [|]] eqn:Ef.
    + unfold commit. cbn [st next did forked]. rewrite app_nil_r.
      rewrite IH; cbn [state pool calls srv dev net].
      * destruct (handleConnection rest d1) as [[d2 cs'] ret]. cbn [fst snd].
        rewrite list_insert_insert_eq, map_app, app_assoc. reflexivity.
      * apply list_lookup_insert_eq. now apply lookup_lt_Some in Ht.
      * exact Hwg.
      * exact Hlen.
      * intros k Hk. specialize (Hlive (S k) ltac:(cbn; lia)).
        cbn [take handleConnection] in Hlive. rewrite Ef in Hlive.
        now destruct (handleConnection (take k rest) d1) as [[? ?] ?].
    + destruct rest as [|r2 rest].
      * cbn [run fst snd].
        destruct (Z.leb_spec 0 (wg (srv (state w)) - 1)); [|lia].
        unfold commit. cbn. now rewrite !app_nil_r.
      * specialize (Hlive 1%nat ltac:(cbn; lia)).
        cbn [take] in Hlive.
        rewrite (handleConnection_one _ _ _ _ _ Ef) in Hlive. discriminate.
Qed.

End MoreConnections.

Lemma forward_MockAdapter c (m : MockAdapter) :
  forward c None m =
    ({| open := open m; writeData := writeData m ++ c |},
     if 0 <? len c then [CallWrite c (len c) None] else [], true).
Proof.
  unfold forward. destruct (0 <? len c) eqn:E; [reflexivity|].
  destruct c; [|discriminate]. rewrite app_nil_r. now destruct m.
Qed.

(** X21.  On the mock adapter of the tests, a connection that delivers the
    given chunks leaves the adapter holding what it held followed by every
    byte sent, in order; [Write] is called once for each chunk that is not
    empty and never fails, the open flag is not touched, and the loop
    returns exactly if the client closed. *)
Theorem handleConnection_MockAdapter :
  forall (chunks : list bytes) (fin : option error) (m : MockAdapter),
    handleConnection (delivery chunks fin) m =
      ({| open := open m; writeData := writeData m ++ concat chunks |},
       map (fun c => CallWrite c (len c) None)
           (List.filter (fun c => 0 <? len c) chunks),
       match fin with Some _ => true | None => false end).
Proof.
  unfold delivery.
  induction chunks as [|c chunks IH]; intros fin m.
  - cbn. rewrite app_nil_r. destruct m, fin; reflexivity.
  - cbn [map app handleConnection concat List.filter].
    rewrite forward_MockAdapter, IH. cbn [open writeData].
    rewrite app_assoc. now destruct (0 <? len c).
Qed.

Lemma handleConnection_task_agrees_witness :
  run (map (fun r => Resume 1 (ReadResult r.1 r.2)) scenario.client_3_1)
      bench.serving =
    Some {| state :=
              {| srv := {| listener := Some 3%nat; address := "localhost:9101";
                           running := true; wg := 0 |};
                 dev := {| open := true;
                           writeData := [Byte.x01; Byte.x02; Byte.x03;
                                         Byte.x04] |};
                 net := net (state bench.serving) |};
            pool := [acceptConnections_top InStart; Exited];
            calls := calls bench.serving
                       ++ [(1%nat, CallWrite [Byte.x01; Byte.x02; Byte.x03] 3 None);
                           (1%nat, CallWrite [Byte.x04] 1 None)] |}.
Proof.
  etransitivity;
    [apply (handleConnection_task_agrees scenario.client_3_1 bench.serving 1)
    |reflexivity].
  - reflexivity.
  - vm_compute. discriminate.
  - repeat constructor; vm_compute; discriminate.
  - intros [|[|[|k]]] Hk; try reflexivity. cbn in Hk. lia.
Defined.

Import binding.

Section Binding.
Context {A : Type} `{Adapter A}.

Lemma elem_of_Listener_Close l l' a (n : Net) :
  l <> l' -> (l, a) ∈ bound n -> (l, a) ∈ bound (Listener_Close l' n).
Proof.
  intros Hne Hin. unfold Listener_Close; cbn [bound].
  apply list_elem_of_In, filter_In. split; [now apply list_elem_of_In|].
  cbn. now destruct (Nat.eqb_spec l l').
Qed.

#[local] Arguments Listener_Close : simpl never.

Lemma piece_bound old p (s : State A) :
  piece_of old p s ->
  bound_at s ->
  (forall l', old = Some (Stop_listener (Some l')) -> stale s l') ->
  address (srv (st p)) = address (srv s) /\ bound_at (st p).
Proof.
  intros Hp Hb Hold. unfold bound_at, stale in *.
  piece_split Hp; cbn in *; (split; [reflexivity|]); intros Hr;
    try discriminate; try (now apply Hb);
    repeat match goal with
           | Hn : net_Listen _ _ = (_, inl _) |- _ =>
               apply net_Listen_inl in Hn as (? & ? & ? & ?); simplify_eq
           end;
    cbn in *;
    try (eexists; split; [reflexivity|apply list_elem_of_here]).
  all: try congruence.
  all: destruct (Hb Hr) as (lb & El & Hin); exists lb.
  all: try (split; [congruence|exact Hin]).
  all: split; [exact El|].
  all: destruct (Hold _ eq_refl) as [_ Hne].
  all: apply elem_of_Listener_Close; [|exact Hin].
  all: intros ->; now apply (Hne Hr).
Qed.

(** X22.  The address given to [New] is never changed, and in every state
    the goroutines can reach a running server holds a listener that is
    bound at that address. *)
Theorem running_bound_at_address :
  forall (addr : string) (device : A) (n : Net) (cs : list Choice)
         (w : World A),
    run cs (boot addr device n) = Some w ->
    address (srv (state w)) = addr /\
    (running (srv (state w)) = true ->
       exists l, listener (srv (state w)) = Some l /\
                 (l, addr) ∈ bound (net (state w)) /\
                 in_use addr (net (state w)) = true).
Proof.
  intros addr device n cs w Hrun.
  set (J := fun w0 : World A =>
    (listens (state w0) /\
     forall tid l', pool w0 !! tid = Some (Stop_listener (Some l')) ->
                    stale (state w0) l') /\
    address (srv (state w0)) = addr /\ bound_at (state w0)).
  assert (HJ : J w).
  { revert Hrun. apply (run_invariant J).
    - intros c w0 w1 [[Hl Hst] [Ha Hb]] Hs.
      destruct (step_cases _ _ _ Hs) as (old & tid & p & Hp & Hpl & Es & _).
      assert (Hold : forall l', old = Some (Stop_listener (Some l')) ->
                                stale (state w0) l').
      { intros l' ->. cbn in Hpl. destruct Hpl as [Ht _]. eauto. }
      destruct (piece_listens _ _ _ Hp Hl Hold) as (Hl1 & Hkeep & Hnew & Hfk).
      destruct (piece_bound _ _ _ Hp Hb Hold) as [Ha1 Hb1].
      unfold J. rewrite Es. cbn [state pool].
      split; [split; [exact Hl1|]|split; [congruence|exact Hb1]].
      intros j l' Hj.
      destruct (placed_lookup _ _ _ _ _ _ _ _ Hpl Hj)
        as [[_ Hx]|[[_ Hx]|(_ & _ & Hx)]].
      + now apply Hnew.
      + apply Hkeep. eauto.
      + now apply Hfk in Hx.
    - split; [split; [split; cbn; discriminate|]|split; [reflexivity|]].
      + intros tid l'. cbn. now rewrite lookup_nil.
      + intros ?; discriminate. }
  destruct HJ as (_ & Ha & Hb). split; [exact Ha|].
  intros Hr. destruct (Hb Hr) as (l & El & Hin). rewrite Ha in Hin.
  exists l. repeat split; try assumption.
  unfold in_use. apply existsb_exists. exists (l, addr).
  split; [now apply list_elem_of_In|]. cbn. apply String.eqb_refl.
Qed.

End Binding.

Lemma running_bound_at_address_witness :
  address (srv (state bench.serving)) = "localhost:9101" /\
  (running (srv (state bench.serving)) = true ->
     exists l, listener (srv (state bench.serving)) = Some l /\
               (l, "localhost:9101") ∈ bound (net (state bench.serving)) /\
               in_use "localhost:9101" (net (state bench.serving)) = true).
Proof.
  apply (running_bound_at_address "localhost:9101" scenario.mock
           scenario.idle_net
           [Invoke MStart; Resume 0 NoInput; Resume 0 Accepted]).
  reflexivity.
Defined.

(* ================================================================== *)
(** * The order of a connection's writes *)

Import order.

Lemma begun_by_app tid l l' :
  begun_by tid (l ++ l') = begun_by tid l ++ begun_by tid l'.
Proof. unfold begun_by. now rewrite begun_app, List.filter_app, map_app. Qed.

Lemma begun_by_WBegin tid data : begun_by tid [WBegin tid data] = [data].
Proof. unfold begun_by; cbn. now rewrite Nat.eqb_refl. Qed.

Lemma piece_order tid (t t1 : Fwd UsbPc) d d1 evs :
  handleConnection_piece tid t d = Some (d1, evs, t1) ->
  (forall j, j <> tid -> begun_by j evs = []) /\
  match t1 with
  | F_Return => begun_by tid evs `prefix_of` pending t
  | _ => pending t = begun_by tid evs ++ pending t1
  end.
Proof.
  intros Hp.
  assert (Hother : forall j data, j <> tid -> begun_by j [WBegin tid data] = []).
  { intros j data Hne. unfold begun_by; cbn.
    now destruct (Nat.eqb_spec tid j) as [->|_]. }
  destruct t as [reads|p rest|]; [| |discriminate].
  - destruct reads as [|[data [e|]] reads]; cbn in Hp; [discriminate| |].
    + injection Hp as <- <- <-. split; [reflexivity|apply prefix_nil].
    + cbn [pending chunks].
      destruct (0 <? len data); injection Hp as <- <- <-;
        (split; [reflexivity|]); reflexivity.
  - destruct p as [data|[|b r] n err|n err]; cbn in Hp.
    + destruct (mu d); [discriminate|].
      destruct (negb (isOpen (usb d)));
        [|destruct (outEndpoint (usb d)) as [ep|];
          [destruct (gousb.out_Write ep data) as [n [err|]]|]];
        injection Hp as <- <- <-;
        (split; [intros j Hne; now apply Hother|]);
        cbn [pending]; now rewrite begun_by_WBegin.
    + injection Hp as <- <- <-. split; reflexivity.
    + injection Hp as <- <- <-. split; reflexivity.
    + destruct err as [e|]; injection Hp as <- <- <-;
        (split; [reflexivity|]); [apply prefix_nil|reflexivity].
Qed.

(** X23.  Whatever the interleaving of the forwarding goroutines, the
    writes a connection's goroutine has begun on the USB adapter are, in
    the order of the log, the first of the chunks not empty that the
    connection delivered before its first read error: none is skipped,
    repeated or reordered.  Until the goroutine returns, what remains is
    exactly what it still has pending. *)
Theorem USBAdapter_writes_in_connection_order :
  forall (d : LockedUSB) (conns : list (list (bytes * option error)))
         (tids : list nat) (s : Sys LockedUSB UsbPc)
         (tid : nat) (reads : list (bytes * option error)),
    exec tids (start d conns) = Some s ->
    conns !! tid = Some reads ->
    exists t, tasks s !! tid = Some t /\
              begun_by tid (log s) `prefix_of` chunks reads /\
              (t <> F_Return ->
               chunks reads = begun_by tid (log s) ++ pending t).
Proof.
  intros d conns tids s tid reads Hexec Hconn.
  set (Q := fun s0 : Sys LockedUSB UsbPc =>
    length (tasks s0) = length conns /\
    forall j t rs, tasks s0 !! j = Some t -> conns !! j = Some rs ->
                   in_order rs j (log s0) t).
  assert (HQ : Q s).
  { revert Hexec. apply (exec_invariant Q).
    - intros j0 s0 s1 [Hlen Hord] Hs.
      destruct (sched_cases _ _ _ Hs) as (t & d1 & evs & t1 & Ht & Hp & ->).
      destruct (piece_order _ _ _ _ _ _ Hp) as [Hother Hmine].
      split; cbn [tasks log]; [now rewrite length_insert|].
      intros j u rs Hu Hrs. unfold in_order. rewrite begun_by_app.
      destruct (insert_lookup_cases _ _ _ _ _ Hu) as [[-> ->]|[Hne Hu']].
      + specialize (Hord _ _ _ Ht Hrs). unfold in_order in Hord.
        assert (Hrs' : chunks rs = begun_by j0 (log s0) ++ pending t).
        { destruct t; [exact Hord|exact Hord|discriminate]. }
        destruct t1; rewrite Hrs'.
        * now rewrite Hmine, app_assoc.
        * now rewrite Hmine, app_assoc.
        * now apply prefix_app.
      + rewrite (Hother _ Hne), app_nil_r. now apply (Hord _ _ _ Hu' Hrs).
    - split; [unfold start; cbn; apply length_map|].
      intros j t rs Hj Hrs. unfold start in Hj; cbn in Hj.
      rewrite list_lookup_fmap, Hrs in Hj. injection Hj as <-.
      reflexivity. }
  destruct HQ as [Hlen Hord].
  destruct (lookup_lt_is_Some_2 (tasks s) tid) as [t Ht].
  { rewrite Hlen. now apply lookup_lt_Some in Hconn. }
  exists t. split; [exact Ht|].
  specialize (Hord _ _ _ Ht Hconn). unfold in_order in Hord.
  destruct t; repeat split; try (intros _; exact Hord);
    try (rewrite Hord; now apply prefix_app_r);
    [exact Hord|intros Hne; now destruct Hne].
Qed.

Lemma USBAdapter_writes_in_connection_order_witness :
  exists s,
    exec scenario.one_after_the_other
         (start scenario.usb_ready scenario.two_clients) = Some s /\
    exists t, tasks s !! 1%nat = Some t /\
              begun_by 1 (log s) `prefix_of` chunks [([Byte.x02], None)] /\
              (t <> F_Return ->
               chunks [([Byte.x02], None)] = begun_by 1 (log s) ++ pending t).
Proof.
  eexists. split; [vm_compute; reflexivity|].
  apply (USBAdapter_writes_in_connection_order
           scenario.usb_ready scenario.two_clients
           scenario.one_after_the_other _ 1 [([Byte.x02], None)]).
  - vm_compute; reflexivity.
  - reflexivity.
Defined.

(* ================================================================== *)
(** * Who waits for whom *)





(* ================================================================== *)
(** * The program *)

Import program.


